(** * Photo catalogue: record CRUD routes and the image upload pipeline

    A shallow embedding of [routes/api.js] (the record CRUD handlers) and of
    the upload router ([POST /upload], [DELETE /image/:url]) into Rocq.

    The handlers are asynchronous JavaScript functions that talk to three
    collaborators: the Prisma record store, the Vercel blob store and the
    sharp transcoder.  They are embedded as computations in a state and
    exception monad over a [World] (the document collection plus the trace
    of observable events).  The collaborators' answers that the handlers
    cannot control (transport failures, write conflicts, the names the blob
    store assigns, the clock) are read from an [Env] of oracles, each a
    function of the history so far; theorems quantify over every [Env]. *)

From Stdlib Require Import ZArith Lia List Bool.
From stdpp Require Import gmap strings list fin_maps pretty.

Set Warnings "-register-all".
Open Scope Z_scope.

(** ** JavaScript values *)

Inductive value : Type :=
  | VUndefined
  | VNull
  | VBool (b : bool)
  | VNum (n : Z)
  | VStr (s : string)
  | VObj (o : gmap string value).

Abbreviation obj := (gmap string value).
Abbreviation bytes := (list Byte.byte).

(** ToBoolean, as used by [if (x)], [a || b] and [a ? b : c]. *)
Definition truthy (v : value) : bool :=
  match v with
  | VUndefined | VNull => false
  | VBool b => b
  | VNum n => negb (n =? 0)
  | VStr s => negb (String.eqb s "")
  | VObj _ => true
  end.

(** Property read [o.k]: a missing key reads as [undefined]. *)
Definition get (k : string) (o : obj) : value := default VUndefined (o !! k).

(** An object literal [{k1: v1, ...}]. *)
Definition object (fields : list (string * value)) : value :=
  VObj (list_to_map fields).

(** Thrown errors: the class name, the [code] property that Prisma's known
    request errors carry, and the message. *)
Record error : Type := mkError {
  err_name : string;
  err_code : option string;
  err_message : string;
}.

(** The names of the language's own error classes: their [name] lives on
    the prototype. *)
Definition BUILTIN_ERRORS : list string :=
  ["Error"; "TypeError"; "RangeError"; "SyntaxError"; "URIError";
   "ReferenceError"; "EvalError"; "AggregateError"].

(** What [JSON.stringify] keeps of an error object: its enumerable own
    properties.  [message] is not one of them, and an error of the
    language itself has none (it is written as the empty object); the
    error classes of the libraries assign [this.name], and [this.code]
    where they have a code. *)
Definition error_value (e : error) : value :=
  object ((if existsb (String.eqb (err_name e)) BUILTIN_ERRORS then []
           else [("name", VStr (err_name e))]) ++
          match err_code e with
          | Some c => [("code", VStr c)]
          | None => []
          end).

(** [err.message || err] *)
Definition message_or_error (e : error) : value :=
  if truthy (VStr (err_message e)) then VStr (err_message e) else error_value e.

(** ** Collaborators' interfaces *)

Inductive store_call : Type :=
  | FindUnique (id : string)
  | Delete (id : string)
  | Create (data : obj)
  | Update (id : string) (data : obj).

Record PutRequest : Type := mkPut {
  put_pathname : string;
  put_body : bytes;
  put_access : string;
  put_contentType : string;
  put_addRandomSuffix : bool;
  put_cacheControlMaxAge : Z;
}.

Record PutBlobResult : Type := mkBlob {
  blob_url : string;
  blob_pathname : string;
  blob_contentType : string;
}.

(** The operations of a sharp pipeline that the upload handler uses:
    [.resize(width, height, { fit, withoutEnlargement })] and
    [.jpeg({ quality })]. *)
Inductive sharp_op : Type :=
  | Resize (width height : Z) (fit : string) (withoutEnlargement : bool)
  | Jpeg (quality : Z).

(** ** Observable events *)

Inductive event : Type :=
  | EvStore (c : store_call) (failure : option error)
  | EvBlobDel (url : value) (failure : option error)
  | EvBlobPut (r : PutRequest) (failure : option error)
  | EvSharp (pipeline : list sharp_op) (input : bytes) (failure : option error)
  | EvSleep (ms : Z)
  | EvLog (msg : string) (arg : value)
  | EvError (msg : string) (e : error)
  | EvDestroy
  | EvRespond (status : Z) (body : value)
  | EvUnhandledRejection (e : error).

Record World : Type := mkWorld {
  db : gmap string obj;
  trace : list event;
}.

(** The environment: everything the collaborators decide on their own.
    Each oracle sees the history of the request so far. *)
Record Env : Type := mkEnv {
  (** a failure the record store injects into a call (transport failure,
      write conflict [P2034], validation error); [None] lets the call run *)
  store_fault : store_call -> list event -> option error;
  (** the identifier the store assigns to a created record *)
  fresh_id : list event -> string;
  (** [del(url)] of the blob store: [None] on success *)
  blob_del : value -> list event -> option error;
  (** [put(pathname, body, options)] of the blob store *)
  blob_put : PutRequest -> list event -> error + PutBlobResult;
  (** [sharp(input). ... .toBuffer()] *)
  sharp_toBuffer : list sharp_op -> bytes -> error + bytes;
  (** [Date.now()] *)
  date_now : list event -> Z;
  (** the builtin [decodeURIComponent]; it throws a [URIError] on
      malformed escapes *)
  decodeURIComponent : string -> error + string;
}.

(** ** The handler monad: state, trace and exceptions *)

Inductive result (A : Type) : Type :=
  | Ok (a : A)
  | Throw (e : error).
Arguments Ok {A} a.
Arguments Throw {A} e.

Definition M (A : Type) : Type := World -> result A * World.

Definition ret {A} (a : A) : M A := fun w => (Ok a, w).

Definition bind {A B} (m : M A) (k : A -> M B) : M B :=
  fun w =>
    match m w with
    | (Ok a, w') => k a w'
    | (Throw e, w') => (Throw e, w')
    end.

Notation "x <- m ;; k" := (bind m (fun x => k))
  (at level 100, m at next level, right associativity).
Notation "m ;;; k" := (bind m (fun _ => k))
  (at level 100, right associativity).

Definition throw {A} (e : error) : M A := fun w => (Throw e, w).

(** [try { m } catch (e) { h e }] *)
Definition try_catch {A} (m : M A) (h : error -> M A) : M A :=
  fun w =>
    match m w with
    | (Ok a, w') => (Ok a, w')
    | (Throw e, w') => h e w'
    end.

Definition emit (e : event) : M unit :=
  fun w => (Ok tt, {| db := db w; trace := trace w ++ [e] |}).

(** [res.status(s).send(body)] / [res.status(s).json(body)] *)
Definition respond (status : Z) (body : value) : M unit :=
  emit (EvRespond status body).

(** [console.log(msg, arg)] and [console.error(msg, err)] *)
Definition console_log (msg : string) (arg : value) : M unit := emit (EvLog msg arg).
Definition console_error (msg : string) (e : error) : M unit := emit (EvError msg e).

(** [await new Promise(r => setTimeout(r, ms))] *)
Definition sleep (ms : Z) : M unit := emit (EvSleep ms).

(** A world with more events in its trace. *)
Definition extend (w : World) (t : list event) : World :=
  {| db := db w; trace := trace w ++ t |}.

(** The world a computation leaves behind. *)
Definition run {A} (m : M A) (w : World) : World := snd (m w).

(** ** The Prisma record store (model [photo]) *)

Definition P2025 (cause : string) : error :=
  mkError "PrismaClientKnownRequestError" (Some "P2025") cause.

Section Handlers.

Variable env : Env.

(** A store call: either the environment makes it fail, or it runs on the
    collection. *)
Definition store_op {A} (c : store_call)
    (normal : gmap string obj -> (error + A) * gmap string obj) : M A :=
  fun w =>
    match store_fault env c (trace w) with
    | Some e =>
        (Throw e, {| db := db w; trace := trace w ++ [EvStore c (Some e)] |})
    | None =>
        match normal (db w) with
        | (inl e, d) => (Throw e, {| db := d; trace := trace w ++ [EvStore c (Some e)] |})
        | (inr a, d) => (Ok a, {| db := d; trace := trace w ++ [EvStore c None] |})
        end
    end.

(** [prisma.photo.findUnique({ where: { id } })]: the record or [null]. *)
Definition prisma_findUnique (id : string) : M (option obj) :=
  store_op (FindUnique id) (fun d => (inr (d !! id), d)).

(** [prisma.photo.delete({ where: { id } })]: the deleted record; throws
    [P2025] when there is none (the message is the cause Prisma names,
    without the description of the invocation that Prisma puts before
    it). *)
Definition prisma_delete (id : string) : M obj :=
  store_op (Delete id) (fun d =>
    match d !! id with
    | Some r => (inr r, delete id d)
    | None => (inl (P2025 "Record to delete does not exist."), d)
    end).

(** [prisma.photo.update({ where: { id }, data })]: the given fields
    replace the record's; throws [P2025] when there is no record. *)
Definition prisma_update (id : string) (data : obj) : M obj :=
  store_op (Update id data) (fun d =>
    match d !! id with
    | Some r => (inr (data ∪ r), <[id := data ∪ r]> d)
    | None => (inl (P2025 "Record to update not found."), d)
    end).

(** [prisma.photo.create({ data })]: the store assigns the identifier. *)
Definition prisma_create (data : obj) : M obj :=
  fun w =>
    let id := fresh_id env (trace w) in
    store_op (Create data) (fun d =>
      let r := <["id" := VStr id]> data in (inr r, <[id := r]> d)) w.

(** [await del(url)] *)
Definition del (url : value) : M unit :=
  fun w =>
    match blob_del env url (trace w) with
    | Some e => (Throw e, {| db := db w; trace := trace w ++ [EvBlobDel url (Some e)] |})
    | None => (Ok tt, {| db := db w; trace := trace w ++ [EvBlobDel url None] |})
    end.

(** ** [routes/api.js] *)

(** [photo?.imageUrl] *)
Definition imageUrl_of (photo : option obj) : value :=
  match photo with
  | Some r => get "imageUrl" r
  | None => VUndefined
  end.

(** [router.delete('/data/:id', ...)] *)
Definition delete_data (id : string) : M unit :=
  try_catch
    (photo <- prisma_findUnique id ;;
     result <- prisma_delete id ;;
     (if truthy (imageUrl_of photo) then
        try_catch
          (del (imageUrl_of photo) ;;;
           console_log "Deleted image:" (imageUrl_of photo))
          (fun blobError => console_error "Failed to delete image:" blobError)
      else ret tt) ;;;
     respond 200 (VObj result))
    (fun err =>
       console_error "DELETE /data/:id error:" err ;;;
       respond 500 (object [("error", VStr "Failed to delete record");
                            ("details", message_or_error err)])).

(** [for (let attempt = from; attempt < bound; attempt++) body]: the body
    answers [true] to go on with the next iteration ([continue], or falling
    off its end) and [false] when it has returned from the handler. *)
Fixpoint for_loop (iterations attempt : nat) (body : nat -> M bool) : M unit :=
  match iterations with
  | O => ret tt
  | S n =>
      again <- body attempt ;;
      if again then for_loop n (S attempt) body else ret tt
  end.

(** [err.code === 'P2034'] *)
Definition is_write_conflict (err : error) : bool :=
  match err_code err with
  | Some c => String.eqb c "P2034"
  | None => false
  end.

(** [const { id, _id, ...requestBody } = req.body || {}] *)
Definition put_requestBody (body : option obj) : obj :=
  delete "id" (delete "_id" (default ∅ body)).

(** The [catch (err)] block of the retry loop of
    [router.put('/data/:id', ...)]. *)
Definition put_catch (attempt : nat) (err : error) : M bool :=
  if is_write_conflict err then
    if (attempt <? 2)%nat then
      sleep 100 ;;; ret true
    else
      respond 409 (object [("error", VStr "Write conflict, please retry")]) ;;;
      ret false
  else
    console_error "PUT /data/:id error:" err ;;;
    respond 500 (object [("error", VStr "Failed to update record")]) ;;;
    ret false.

(** One iteration of the retry loop. *)
Definition put_attempt (id : string) (requestBody : obj) (attempt : nat) : M bool :=
  try_catch
    (updated <- prisma_update id requestBody ;;
     console_log ("PUT /data/" +:+ id +:+ " successful on attempt "
                    +:+ pretty attempt +:+ ":") (VObj updated) ;;;
     respond 200 (VObj updated) ;;;
     ret false)
    (put_catch attempt).

(** [router.put('/data/:id', ...)] *)
Definition put_data (id : string) (body : option obj) : M unit :=
  for_loop (3 - 0) 0 (put_attempt id (put_requestBody body)).

(** [const { id, ...createData } = req.body]: destructuring [undefined]
    throws a [TypeError]. *)
Definition post_createData (body : option obj) : M obj :=
  match body with
  | Some b => ret (delete "id" b)
  | None =>
      throw (mkError "TypeError" None
               "Cannot destructure property 'id' of 'req.body' as it is undefined.")
  end.

(** [router.post('/data', ...)] *)
Definition post_data (body : option obj) : M unit :=
  try_catch
    (createData <- post_createData body ;;
     created <- prisma_create createData ;;
     respond 201 (VObj created))
    (fun err =>
       console_error "POST /data error:" err ;;;
       respond 500 (object [("error", VStr "Failed to create record");
                            ("details", message_or_error err)])).

(** ** The upload router *)

Definition MAX_FILE_SIZE : Z := 10 * 1024 * 1024.
Definition MAX_WIDTH : Z := 800.
Definition MAX_HEIGHT : Z := 800.
Definition JPEG_QUALITY : Z := 85.
Definition ALLOWED_TYPES : list string :=
  ["image/jpeg"; "image/png"; "image/webp"; "image/svg+xml"].

(** [Array.prototype.includes] on strings *)
Definition array_includes (l : list string) (x : string) : bool :=
  existsb (String.eqb x) l.

(** [String.prototype.includes] *)
Fixpoint string_includes (s sub : string) : bool :=
  String.prefix sub s ||
  match s with
  | EmptyString => false
  | String _ s' => string_includes s' sub
  end.

(** busboy's [info] of a file part *)
Record FileInfo : Type := mkInfo {
  filename : string;
  mimeType : string;
}.

(** The closure state of one file part: [chunks], [fileSize], and whether
    [file.destroy()] has been called. *)
Record FileState : Type := mkFile {
  chunks : list bytes;
  fileSize : Z;
  destroyed : bool;
}.

Definition sharp_run (pipeline : list sharp_op) (input : bytes) : M bytes :=
  fun w =>
    match sharp_toBuffer env pipeline input with
    | inl e => (Throw e, {| db := db w; trace := trace w ++ [EvSharp pipeline input (Some e)] |})
    | inr out => (Ok out, {| db := db w; trace := trace w ++ [EvSharp pipeline input None] |})
    end.

Definition put (r : PutRequest) : M PutBlobResult :=
  fun w =>
    match blob_put env r (trace w) with
    | inl e => (Throw e, {| db := db w; trace := trace w ++ [EvBlobPut r (Some e)] |})
    | inr b => (Ok b, {| db := db w; trace := trace w ++ [EvBlobPut r None] |})
    end.

Definition Date_now : M Z := fun w => (Ok (date_now env (trace w)), w).

(** [file.on('data', (chunk) => ...)] *)
Definition on_data (st : FileState) (chunk : bytes) : M FileState :=
  let fileSize' := fileSize st + Z.of_nat (length chunk) in
  if MAX_FILE_SIZE <? fileSize' then
    emit EvDestroy ;;;
    respond 400 (object [("error", VStr "File too large. Maximum size is 10MB.")]) ;;;
    ret {| chunks := chunks st; fileSize := fileSize'; destroyed := true |}
  else
    ret {| chunks := chunks st ++ [chunk]; fileSize := fileSize'; destroyed := destroyed st |}.

(** The sharp pipeline of the handler:
    [.resize(MAX_WIDTH, MAX_HEIGHT, { fit: 'inside', withoutEnlargement: true })
     .jpeg({ quality: JPEG_QUALITY })] *)
Definition transcode_pipeline : list sharp_op :=
  [Resize MAX_WIDTH MAX_HEIGHT "inside" true; Jpeg JPEG_QUALITY].

(** The transcoding step of the ['end'] listener: the processed buffer and
    its content type. *)
Definition transcode (info : FileInfo) (buffer : bytes) : M (bytes * string) :=
  if negb (string_includes (mimeType info) "svg") then
    processedBuffer <- sharp_run transcode_pipeline buffer ;;
    ret (processedBuffer, "image/jpeg")
  else
    ret (buffer, mimeType info).

(** The arguments of the handler's [put(...)] call:
    [put(`cat-images/${Date.now()}-${info.filename}`, processedBuffer,
         { access: 'public', contentType, addRandomSuffix: true,
           cacheControlMaxAge: 31536000 })] *)
Definition upload_put (now : Z) (info : FileInfo) (processedBuffer : bytes)
    (contentType : string) : PutRequest :=
  {| put_pathname := "cat-images/" +:+ pretty now +:+ "-" +:+ filename info;
     put_body := processedBuffer;
     put_access := "public";
     put_contentType := contentType;
     put_addRandomSuffix := true;
     put_cacheControlMaxAge := 31536000 |}.

(** [file.on('end', async () => ...)] *)
Definition on_end (info : FileInfo) (st : FileState) : M unit :=
  let buffer := concat (chunks st) in
  p <- transcode info buffer ;;
  now <- Date_now ;;
  blob <- put (upload_put now info (fst p) (snd p)) ;;
  respond 200 (object [("url", VStr (blob_url blob));
                       ("pathname", VStr (blob_pathname blob));
                       ("contentType", VStr (blob_contentType blob));
                       ("size", VNum (Z.of_nat (length (fst p))))]).

(** An [async] listener: nobody awaits it, so an exception it throws ends
    as an unhandled rejection and no response is written. *)
Definition detached (m : M unit) : M unit :=
  try_catch m (fun e => emit (EvUnhandledRejection e)).

(** The file stream: one ['data'] event per chunk, then ['end']; a
    destroyed stream emits neither. *)
Fixpoint flow (info : FileInfo) (st : FileState) (body : list bytes) : M unit :=
  match body with
  | [] => detached (on_end info st)
  | chunk :: rest =>
      st' <- on_data st chunk ;;
      if destroyed st' then ret tt else flow info st' rest
  end.

(** The ['data'] listener over the chunks that have arrived so far, while
    the rest of the body is still on its way and ['end'] has not fired: the
    state of the file part and, in the world, what the handler has done by
    then.  A destroyed stream hands over no further chunk. *)
Fixpoint arrive (st : FileState) (arrived : list bytes) : M FileState :=
  match arrived with
  | [] => ret st
  | chunk :: rest =>
      st' <- on_data st chunk ;;
      if destroyed st' then ret st' else arrive st' rest
  end.

(** [bb.on('file', async (name, file, info) => ...)] up to the registration
    of the listeners: [true] when they were registered. *)
Definition on_file (info : FileInfo) : M bool :=
  try_catch
    (if negb (array_includes ALLOWED_TYPES (mimeType info)) then
       respond 400 (object [("error", VStr "Invalid file type. Only images allowed.")]) ;;;
       ret false
     else
       ret true)
    (fun error =>
       console_error "Upload error:" error ;;;
       respond 500 (object [("error", VStr "Upload failed");
                            ("details", VStr (err_message error))]) ;;;
       ret false).

(** [router.post('/upload', ...)] on a request whose multipart body holds
    one file part. *)
Definition post_upload (info : FileInfo) (body : list bytes) : M unit :=
  listening <- on_file info ;;
  if listening then flow info {| chunks := []; fileSize := 0; destroyed := false |} body
  else ret tt.

(** A call of the builtin [decodeURIComponent]. *)
Definition decode_component (s : string) : M string :=
  fun w =>
    match decodeURIComponent env s with
    | inl e => (Throw e, w)
    | inr u => (Ok u, w)
    end.

(** [router.delete('/image/:url', ...)] *)
Definition delete_image (param : string) : M unit :=
  try_catch
    (url <- decode_component param ;;
     del (VStr url) ;;;
     respond 200 (object [("deleted", VStr url)]))
    (fun error =>
       console_error "Delete error:" error ;;;
       respond 500 (object [("error", VStr "Delete failed");
                            ("details", VStr (err_message error))])).

End Handlers.

(** ** Routing

    Express matches the request path segment by segment; a [:name] segment
    of a pattern takes one non-empty path segment.  The routers are made
    with [express.Router()], so with the defaults: a literal part of a
    pattern matches in any case of its letters, and one trailing [/] of
    the path is ignored.  Paths are relative to the mount point of the
    router and already split at [/] (a trailing [/] leaves an empty last
    segment); the segment a parameter takes is the text Express hands to
    [req.params], after its one percent-decoding. *)

Inductive method : Type := GET | POST | PUT | DELETE.

Definition method_eqb (a b : method) : bool :=
  match a, b with
  | GET, GET | POST, POST | PUT, PUT | DELETE, DELETE => true
  | _, _ => false
  end.

Inductive segment : Type :=
  | Lit (s : string)
  | Param (name : string).

Record Request : Type := mkRequest {
  req_method : method;
  req_path : list string;
  (** [req.body], when a JSON body was sent *)
  req_body : option obj;
  (** the file part of a multipart body: busboy's [info] and the chunks of
      the file stream *)
  req_file : option (FileInfo * list bytes);
}.

(** The letter-case folding of the route matcher, on the letters A to Z. *)
Definition lower_case_char (c : Ascii.ascii) : Ascii.ascii :=
  let n := Ascii.N_of_ascii c in
  if ((65 <=? n) && (n <=? 90))%N then Ascii.ascii_of_N (n + 32) else c.

Fixpoint lower_case (s : string) : string :=
  match s with
  | EmptyString => EmptyString
  | String c s' => String (lower_case_char c) (lower_case s')
  end.

Fixpoint match_path (pattern : list segment) (path : list string)
    : option (gmap string string) :=
  match pattern, path with
  | [], [] => Some ∅
  | [], [""] => Some ∅
  | Lit s :: pattern', x :: path' =>
      if String.eqb (lower_case s) (lower_case x) then match_path pattern' path' else None
  | Param name :: pattern', x :: path' =>
      if String.eqb x "" then None
      else insert name x <$> match_path pattern' path'
  | _, _ => None
  end.

Record Route : Type := mkRoute {
  route_method : method;
  route_pattern : list segment;
  route_handler : Env -> Request -> gmap string string -> M unit;
}.

(** [req.params.name] *)
Definition param (name : string) (params : gmap string string) : string :=
  default "" (params !! name).

(** The routes of [routes/api.js]. *)
Definition api_routes : list Route :=
  [ mkRoute POST [Lit "data"]
      (fun env req _ => post_data env (req_body req));
    mkRoute PUT [Lit "data"; Param "id"]
      (fun env req params => put_data env (param "id" params) (req_body req));
    mkRoute DELETE [Lit "data"; Param "id"]
      (fun env req params => delete_data env (param "id" params)) ].

(** The routes of the upload router. *)
Definition upload_routes : list Route :=
  [ mkRoute POST [Lit "upload"]
      (fun env req _ =>
         match req_file req with
         | Some (info, body) => post_upload env info body
         | None => ret tt
         end);
    mkRoute DELETE [Lit "image"; Param "url"]
      (fun env req params => delete_image env (param "url" params)) ].

(** The first route that matches handles the request; [None] when the
    router has no route for it and passes the request on. *)
Fixpoint dispatch (routes : list Route) (env : Env) (req : Request) : option (M unit) :=
  match routes with
  | [] => None
  | r :: routes' =>
      if method_eqb (route_method r) (req_method req) then
        match match_path (route_pattern r) (req_path req) with
        | Some params => Some (route_handler r env req params)
        | None => dispatch routes' env req
        end
      else dispatch routes' env req
  end.

(** ** The transcoder's geometry *)

(** Division rounding to the nearest integer, halves up. *)
Definition round_div (a b : Z) : Z := (2 * a + b) / (2 * b).

(** Modelled from the spec: what the transcoder (the third-party sharp
    library, whose code is not part of the repository) does to the
    dimensions of a decoded raster image for [fit: 'inside']: the image is
    scaled by one factor for both edges so that it fits within the box, the
    scaled edge rounded to the nearest pixel and at least one pixel, and
    with [withoutEnlargement] an image that already fits keeps its
    dimensions.  Other fit modes are not described. *)
Definition fit_inside (W H : Z) (withoutEnlargement : bool) (w h : Z) : Z * Z :=
  if withoutEnlargement && (w <=? W) && (h <=? H) then (w, h)
  else if h * W <=? w * H then (W, Z.max 1 (round_div (h * W) w))
  else (Z.max 1 (round_div (w * H) h), H).

(** Dimensions and format of an image after one operation of a pipeline;
    [None] for a fit mode that is not described. *)
Definition apply_op (op : sharp_op) (img : (Z * Z) * string) : option ((Z * Z) * string) :=
  match op with
  | Resize W H fit we =>
      if String.eqb fit "inside"
      then Some (fit_inside W H we (fst (fst img)) (snd (fst img)), snd img)
      else None
  | Jpeg _ => Some (fst img, "image/jpeg")
  end.

Definition pipeline_output (pipeline : list sharp_op) (img : (Z * Z) * string)
    : option ((Z * Z) * string) :=
  fold_left (fun i op => i ≫= apply_op op) pipeline (Some img).

(** The quality that the encoder of a pipeline is given. *)
Definition pipeline_quality (pipeline : list sharp_op) : option Z :=
  fold_left (fun q op => match op with Jpeg k => Some k | _ => q end) pipeline None.

(** ** Reading the trace *)

Definition is_blob_del (e : event) : bool :=
  match e with EvBlobDel _ _ => true | _ => false end.
Definition is_blob_put (e : event) : bool :=
  match e with EvBlobPut _ _ => true | _ => false end.
Definition is_sharp (e : event) : bool :=
  match e with EvSharp _ _ _ => true | _ => false end.
Definition is_update (e : event) : bool :=
  match e with EvStore (Update _ _) _ => true | _ => false end.
Definition is_sleep (e : event) : bool :=
  match e with EvSleep _ => true | _ => false end.

(** The number of events of a kind. *)
Definition count (p : event -> bool) (t : list event) : nat :=
  length (List.filter p t).

(** Total number of bytes of a chunked body. *)
Definition total_size (body : list bytes) : Z :=
  Z.of_nat (length (concat body)).

(** The events a handler adds to a world's trace. *)
Definition events_of {A} (m : M A) (w : World) : list event :=
  drop (length (trace w)) (trace (run m w)).

(** The responses written, in order. *)
Definition responses (t : list event) : list (Z * value) :=
  omap (fun e => match e with EvRespond s b => Some (s, b) | _ => None end) t.

(** What the upload handler does when the size limit is passed. *)
Definition too_large : list event :=
  [EvDestroy;
   EvRespond 400 (object [("error", VStr "File too large. Maximum size is 10MB.")])].

(** The class of a status code: 2 for 2xx, 4 for 4xx, ... *)
Definition status_class (status : Z) : Z := status / 100.

(** The events of the retries of a store call: each conflict reported by
    the store is followed by the fixed delay. *)
Definition retry_events (c : store_call) (conflicts : list error) : list event :=
  flat_map (fun e => [EvStore c (Some e); EvSleep 100]) conflicts.

(** The three ways the last attempt of an update ends, with the number of
    the attempt (counted from 0). *)
Inductive put_ending (id : string) (data : obj) : nat -> list event -> Prop :=
  | put_updated (attempt : nat) (updated : obj) :
      put_ending id data attempt
        [EvStore (Update id data) None;
         EvLog ("PUT /data/" +:+ id +:+ " successful on attempt "
                  +:+ pretty attempt +:+ ":") (VObj updated);
         EvRespond 200 (VObj updated)]
  | put_conflict (e : error) :
      is_write_conflict e = true ->
      put_ending id data 2
        [EvStore (Update id data) (Some e);
         EvRespond 409 (object [("error", VStr "Write conflict, please retry")])]
  | put_failed (attempt : nat) (e : error) :
      is_write_conflict e = false ->
      put_ending id data attempt
        [EvStore (Update id data) (Some e);
         EvError "PUT /data/:id error:" e;
         EvRespond 500 (object [("error", VStr "Failed to update record")])].

(** The record store is available: it injects no failure into the given
    consecutive calls, the first of them made at history [t]. *)
Fixpoint store_answers (env : Env) (t : list event) (calls : list store_call) : Prop :=
  match calls with
  | [] => True
  | c :: calls' =>
      store_fault env c t = None /\ store_answers env (t ++ [EvStore c None]) calls'
  end.

(** ** The builtin [decodeURIComponent]

    on strings held as their UTF-8 octets: every escape [%XX] stands for
    one octet, and the octets of consecutive escapes must form the UTF-8
    encoding of a code point; a [%] without two hexadecimal digits, or
    octets that are no such encoding, are a [URIError]. *)

Definition hex_digit (c : Ascii.ascii) : option N :=
  let n := Ascii.N_of_ascii c in
  if ((48 <=? n) && (n <=? 57))%N then Some (n - 48)%N
  else if ((65 <=? n) && (n <=? 70))%N then Some (n - 55)%N
  else if ((97 <=? n) && (n <=? 102))%N then Some (n - 87)%N
  else None.

Inductive uri_token : Type :=
  | Plain (c : Ascii.ascii)
  | Escaped (octet : N).

Fixpoint uri_tokens (s : string) : option (list uri_token) :=
  match s with
  | EmptyString => Some []
  | String c s' =>
      if (Ascii.N_of_ascii c =? 37)%N then
        match s' with
        | String h (String l rest) =>
            match hex_digit h, hex_digit l, uri_tokens rest with
            | Some x, Some y, Some ts => Some (Escaped (16 * x + y)%N :: ts)
            | _, _, _ => None
            end
        | _ => None
        end
      else cons (Plain c) <$> uri_tokens s'
  end.

Definition continuation (lo hi : N) (t : uri_token) : option Ascii.ascii :=
  match t with
  | Escaped b => if ((lo <=? b) && (b <=? hi))%N then Some (Ascii.ascii_of_N b) else None
  | Plain _ => None
  end.

Fixpoint uri_octets (ts : list uri_token) : option string :=
  match ts with
  | [] => Some EmptyString
  | Plain c :: ts' => String c <$> uri_octets ts'
  | Escaped b :: ts' =>
      let lead := Ascii.ascii_of_N b in
      if (b <? 128)%N then String lead <$> uri_octets ts'
      else if ((194 <=? b) && (b <=? 223))%N then
        match ts' with
        | t1 :: ts'' =>
            match continuation 128 191 t1, uri_octets ts'' with
            | Some c1, Some r => Some (String lead (String c1 r))
            | _, _ => None
            end
        | _ => None
        end
      else if ((224 <=? b) && (b <=? 239))%N then
        match ts' with
        | t1 :: t2 :: ts'' =>
            match continuation (if (b =? 224)%N then 160 else 128)
                               (if (b =? 237)%N then 159 else 191) t1,
                  continuation 128 191 t2, uri_octets ts'' with
            | Some c1, Some c2, Some r => Some (String lead (String c1 (String c2 r)))
            | _, _, _ => None
            end
        | _ => None
        end
      else if ((240 <=? b) && (b <=? 244))%N then
        match ts' with
        | t1 :: t2 :: t3 :: ts'' =>
            match continuation (if (b =? 240)%N then 144 else 128)
                               (if (b =? 244)%N then 143 else 191) t1,
                  continuation 128 191 t2, continuation 128 191 t3, uri_octets ts'' with
            | Some c1, Some c2, Some c3, Some r =>
                Some (String lead (String c1 (String c2 (String c3 r))))
            | _, _, _, _ => None
            end
        | _ => None
        end
      else None
  end.

Definition percent_decode (s : string) : error + string :=
  match uri_tokens s with
  | Some ts =>
      match uri_octets ts with
      | Some u => inr u
      | None => inl (mkError "URIError" None "URI malformed")
      end
  | None => inl (mkError "URIError" None "URI malformed")
  end.

(** ** Sample requests, worlds and environments *)

(** A record with an image, and a collection that holds it. *)
Definition sample_photo : obj :=
  list_to_map [("id", VStr "p1"); ("title", VStr "Sunset");
               ("imageUrl", VStr "https://blobs.example/cat-images/1-sunset.jpg")].

Definition sample_world : World :=
  {| db := {[ "p1" := sample_photo ]}; trace := [] |}.

(** Collaborators that all answer: the blob store names a blob after the
    pathname it is given and reports the content type it is given; the
    transcoder returns the start-of-image marker of a JPEG file. *)
Definition quiet_env : Env :=
  {| store_fault := fun _ _ => None;
     fresh_id := fun _ => "650000000000000000000001";
     blob_del := fun _ _ => None;
     blob_put := fun r _ =>
       inr {| blob_url := "https://blobs.example/" +:+ put_pathname r;
              blob_pathname := put_pathname r;
              blob_contentType := put_contentType r |};
     sharp_toBuffer := fun _ _ => inr [Byte.xff; Byte.xd8; Byte.xff];
     date_now := fun _ => 1700000000000;
     decodeURIComponent := percent_decode |}.

(** The same, with a blob store whose [del] fails. *)
Definition blob_down_env : Env :=
  {| store_fault := store_fault quiet_env;
     fresh_id := fresh_id quiet_env;
     blob_del := fun _ _ => Some (mkError "BlobError" None "Vercel Blob: store unavailable");
     blob_put := blob_put quiet_env;
     sharp_toBuffer := sharp_toBuffer quiet_env;
     date_now := date_now quiet_env;
     decodeURIComponent := decodeURIComponent quiet_env |}.

(** The same, with a blob store whose [put] fails. *)
Definition put_down_env : Env :=
  {| store_fault := store_fault quiet_env;
     fresh_id := fresh_id quiet_env;
     blob_del := blob_del quiet_env;
     blob_put := fun _ _ => inl (mkError "BlobError" None "Vercel Blob: store unavailable");
     sharp_toBuffer := sharp_toBuffer quiet_env;
     date_now := date_now quiet_env;
     decodeURIComponent := decodeURIComponent quiet_env |}.

Definition svg_info : FileInfo := {| filename := "logo.svg"; mimeType := "image/svg+xml" |}.
Definition png_info : FileInfo := {| filename := "cat.png"; mimeType := "image/png" |}.
Definition pdf_info : FileInfo := {| filename := "doc.pdf"; mimeType := "application/pdf" |}.

(** A small body in two chunks, and a single chunk one byte over the
    limit. *)
Definition small_body : list bytes :=
  [[Byte.x3c; Byte.x73; Byte.x76]; [Byte.x67; Byte.x2f; Byte.x3e]].

Definition big_chunk : bytes := repeat Byte.x00 (Z.to_nat (MAX_FILE_SIZE + 1)).

(** A body whose third chunk passes the limit, with two more after it. *)
Definition over_limit_body : list bytes := small_body ++ big_chunk :: small_body.

(** [DELETE /image] with the blob URL in a JSON body, as the page's
    [removeImage] sends it. *)
Definition remove_image_request (url : string) : Request :=
  {| req_method := DELETE;
     req_path := ["image"];
     req_body := Some {[ "url" := VStr url ]};
     req_file := None |}.

(** [DELETE /image/:url] with the blob URL as the path parameter. *)
Definition delete_image_request (segment : string) : Request :=
  {| req_method := DELETE;
     req_path := ["image"; segment];
     req_body := None;
     req_file := None |}.

(** ** The upload page (browser side)

    The script of the upload dialog: [showNotice], [updateButtons],
    [uploadFile] and [removeImage].  The page is the record of the DOM
    properties these functions read and write; [fetch] is an oracle of the
    network, and what the script does beside the page (requests, console,
    timers) is logged. *)

Record Page : Type := mkPage {
  imagePreview_src : string;
  imagePreview_display : string;
  noticeArea_textContent : string;
  noticeArea_className : string;
  noticeArea_display : string;
  imageUrl_value : string;
  fileInput_value : string;
  removeImageButton_display : string;
  browseButton_textContent : string;
}.

(** A [File]: its name, its declared type and its content. *)
Record File : Type := mkFile' {
  file_name : string;
  file_type : string;
  file_bytes : bytes;
}.

(** [file.size] *)
Definition file_size (f : File) : Z := Z.of_nat (length (file_bytes f)).

Inductive fetch_body : Type :=
  | NoPayload
  | FormImage (f : File)      (* a [FormData] with the file under [image] *)
  | JsonBody (v : value).     (* [JSON.stringify(v)] *)

Record FetchRequest : Type := mkFetch {
  fetch_url : string;
  fetch_method : method;
  fetch_headers : list (string * string);
  fetch_payload : fetch_body;
}.

(** How a [fetch] settles: it rejects, or it resolves with a response, of
    which the script reads the status and [response.json()] (a value, or
    the error of a body that is no JSON); or it never settles. *)
Inductive FetchResult : Type :=
  | NetworkError (e : error)
  | Response (status : Z) (json : error + value)
  | NoAnswer.

Inductive browser_event : Type :=
  | BFetch (r : FetchRequest)
  | BConsoleError (msg : string) (e : error)
  | BConsoleLog (msg : string) (arg : value)
  | BSetTimeout (ms : Z)
  | BAlert (msg : string)
  | BCall (function : string).

Record Browser : Type := mkBrowser {
  page : Page;
  blog : list browser_event;
}.

(** [response.ok] *)
Definition response_ok (status : Z) : bool := (200 <=? status) && (status <=? 299).

(** ToString of a value, as an assignment to a string property applies
    it. *)
Definition to_string (v : value) : string :=
  match v with
  | VUndefined => "undefined"
  | VNull => "null"
  | VBool true => "true"
  | VBool false => "false"
  | VNum n => pretty n
  | VStr s => s
  | VObj _ => "[object Object]"
  end.

(** The same for the [value] of an input, which reads [null] as the
    empty string. *)
Definition to_dom_string (v : value) : string :=
  match v with
  | VNull => ""
  | _ => to_string v
  end.

(** The same for [textContent], a nullable string: [null] and [undefined]
    both clear it. *)
Definition to_text_content (v : value) : string :=
  match v with
  | VUndefined | VNull => ""
  | _ => to_string v
  end.

(** Property read [v.k] on any value: it throws on [null] and
    [undefined]. *)
Definition property (v : value) (k : string) : error + value :=
  match v with
  | VUndefined =>
      inl (mkError "TypeError" None
             ("Cannot read properties of undefined (reading '" +:+ k +:+ "')"))
  | VNull =>
      inl (mkError "TypeError" None
             ("Cannot read properties of null (reading '" +:+ k +:+ "')"))
  | VObj o => inr (get k o)
  | _ => inr VUndefined
  end.

(** [a || b] *)
Definition js_or (a b : value) : value := if truthy a then a else b.

Definition log_event (e : browser_event) (b : Browser) : Browser :=
  {| page := page b; blog := blog b ++ [e] |}.

(** [showNotice(message, type)] *)
Definition showNotice (message : value) (type : string) (b : Browser) : Browser :=
  let p := page b in
  let b' :=
    {| page := {| imagePreview_src := imagePreview_src p;
                  imagePreview_display := imagePreview_display p;
                  noticeArea_textContent := to_text_content message;
                  noticeArea_className := "notice " +:+ type;
                  noticeArea_display := "block";
                  imageUrl_value := imageUrl_value p;
                  fileInput_value := fileInput_value p;
                  removeImageButton_display := removeImageButton_display p;
                  browseButton_textContent := browseButton_textContent p |};
       blog := blog b |} in
  if String.eqb type "success" then log_event (BSetTimeout 3000) b' else b'.

(** The callback of the timer of [showNotice]. *)
Definition notice_timeout (p : Page) : Page :=
  {| imagePreview_src := imagePreview_src p;
     imagePreview_display := imagePreview_display p;
     noticeArea_textContent := noticeArea_textContent p;
     noticeArea_className := noticeArea_className p;
     noticeArea_display := "none";
     imageUrl_value := imageUrl_value p;
     fileInput_value := fileInput_value p;
     removeImageButton_display := removeImageButton_display p;
     browseButton_textContent := browseButton_textContent p |}.

(** [updateButtons()] *)
Definition updateButtons (b : Browser) : Browser :=
  let p := page b in
  let hasImage := truthy (VStr (imageUrl_value p)) in
  {| page := {| imagePreview_src := imagePreview_src p;
                imagePreview_display := imagePreview_display p;
                noticeArea_textContent := noticeArea_textContent p;
                noticeArea_className := noticeArea_className p;
                noticeArea_display := noticeArea_display p;
                imageUrl_value := imageUrl_value p;
                fileInput_value := fileInput_value p;
                removeImageButton_display := if hasImage then "flex" else "none";
                browseButton_textContent := if hasImage then "Replace" else "Browse" |};
     blog := blog b |}.

(** The request of [uploadFile]. *)
Definition upload_request (file : File) : FetchRequest :=
  {| fetch_url := "/api/upload";
     fetch_method := POST;
     fetch_headers := [];
     fetch_payload := FormImage file |}.

(** The request of [removeImage]. *)
Definition remove_request (imageUrl : string) : FetchRequest :=
  {| fetch_url := "/api/image";
     fetch_method := DELETE;
     fetch_headers := [("Content-Type", "application/json")];
     fetch_payload := JsonBody (object [("url", VStr imageUrl)]) |}.

Section UploadPage.

(** The network: how a request settles, given what the script has done so
    far. *)
Variable fetch : FetchRequest -> list browser_event -> FetchResult.

(** The [catch (error)] block of [uploadFile]. *)
Definition upload_catch (error : error) (b : Browser) : Browser :=
  showNotice (VStr "Upload failed. Please try again.") "error"
    (log_event (BConsoleError "Upload error:" error) b).

(** What [uploadFile] does with the response. *)
Definition upload_response (status : Z) (json : error + value) (b : Browser) : Browser :=
  if negb (response_ok status) then
    match json with
    | inl e => upload_catch e b
    | inr error =>
        match property error "error" with
        | inl e => upload_catch e b
        | inr message => showNotice (js_or message (VStr "Upload failed")) "error" b
        end
    end
  else
    match json with
    | inl e => upload_catch e b
    | inr data =>
        match property data "url" with
        | inl e => upload_catch e b
        | inr url =>
            let p := page b in
            showNotice (VStr "Upload successful!") "success"
              (updateButtons
                 {| page := {| imagePreview_src := to_string url;
                               imagePreview_display := imagePreview_display p;
                               noticeArea_textContent := noticeArea_textContent p;
                               noticeArea_className := noticeArea_className p;
                               noticeArea_display := noticeArea_display p;
                               imageUrl_value := to_dom_string url;
                               fileInput_value := fileInput_value p;
                               removeImageButton_display := removeImageButton_display p;
                               browseButton_textContent := browseButton_textContent p |};
                    blog := blog b |})
        end
    end.

(** [uploadFile(file)]: the browser when the function has returned, or
    where it waits for ever when the request never settles. *)
Definition uploadFile (file : File) (b : Browser) : Browser :=
  if 10 * 1024 * 1024 <? file_size file then
    showNotice (VStr "File too large. Maximum size is 10MB.") "error" b
  else if negb (String.prefix "image/" (file_type file)) then
    showNotice (VStr "Only image files are allowed.") "error" b
  else
    let p := page b in
    let loading :=
      {| page := {| imagePreview_src := "";
                    imagePreview_display := "block";
                    noticeArea_textContent := noticeArea_textContent p;
                    noticeArea_className := noticeArea_className p;
                    noticeArea_display := "none";
                    imageUrl_value := imageUrl_value p;
                    fileInput_value := fileInput_value p;
                    removeImageButton_display := removeImageButton_display p;
                    browseButton_textContent := browseButton_textContent p |};
         blog := blog b |} in
    let sent := log_event (BFetch (upload_request file)) loading in
    match fetch (upload_request file) (blog b) with
    | NoAnswer => sent
    | NetworkError e => upload_catch e sent
    | Response status json => upload_response status json sent
    end.

(** The reset at the end of [removeImage]. *)
Definition reset_image (b : Browser) : Browser :=
  let p := page b in
  updateButtons
    {| page := {| imagePreview_src := "";
                  imagePreview_display := "none";
                  noticeArea_textContent := noticeArea_textContent p;
                  noticeArea_className := noticeArea_className p;
                  noticeArea_display := "none";
                  imageUrl_value := "";
                  fileInput_value := "";
                  removeImageButton_display := removeImageButton_display p;
                  browseButton_textContent := browseButton_textContent p |};
       blog := blog b |}.

(** [removeImage()] *)
Definition removeImage (b : Browser) : Browser :=
  let imageUrl := imageUrl_value (page b) in
  if truthy (VStr imageUrl) then
    let sent := log_event (BFetch (remove_request imageUrl)) b in
    match fetch (remove_request imageUrl) (blog b) with
    | NoAnswer => sent
    | NetworkError e => reset_image (log_event (BConsoleError "Delete error:" e) sent)
    | Response _ _ => reset_image sent
    end
  else reset_image b.

End UploadPage.

(** ** The page and the server

    [app.use('/api', uploadRoutes)]: the upload router answers under
    [/api]. *)

(** The segments of a path, split at [/]. *)
Fixpoint split_path (s : string) (segment : string) : list string :=
  match s with
  | EmptyString => [segment]
  | String c s' =>
      if String.eqb (String c "") "/" then segment :: split_path s' ""
      else split_path s' (segment +:+ String c "")
  end.

Definition path_segments (url : string) : list string :=
  match split_path url "" with
  | "" :: segments => segments
  | segments => segments
  end.

(** The request the upload router sees for a [fetch] of the page: the
    path below the mount point, the parsed JSON body, and the file part
    with busboy's [info] and the chunks in which the stream delivers the
    content.  [None] for a path that is not under [/api]. *)
Definition app_request (deliver : bytes -> list bytes) (r : FetchRequest) : option Request :=
  match path_segments (fetch_url r) with
  | "api" :: path =>
      Some {| req_method := fetch_method r;
              req_path := path;
              req_body := match fetch_payload r with
                          | JsonBody (VObj o) => Some o
                          | _ => None
                          end;
              req_file := match fetch_payload r with
                          | FormImage f =>
                              Some ({| filename := file_name f; mimeType := file_type f |},
                                    deliver (file_bytes f))
                          | _ => None
                          end |}
  | _ => None
  end.

(** How the upload router answers a [fetch]: with the first response its
    handler writes, or never when the handler writes none; [None] when the
    router has no route for the request. *)
Definition serve (env : Env) (w : World) (deliver : bytes -> list bytes)
    (r : FetchRequest) : option FetchResult :=
  match app_request deliver r with
  | None => None
  | Some req =>
      match dispatch upload_routes env req with
      | None => None
      | Some handler =>
          Some match responses (events_of handler w) with
               | (status, body) :: _ => Response status (inr body)
               | [] => NoAnswer
               end
      end
  end.

(** A network that reaches the upload router. *)
Definition served_by (env : Env) (w : World) (deliver : bytes -> list bytes)
    (fetch : FetchRequest -> list browser_event -> FetchResult) : Prop :=
  forall r history answer, serve env w deliver r = Some answer -> fetch r history = answer.

(** A sample page, files, and a network that is the upload router alone. *)
Definition blank_page : Page :=
  {| imagePreview_src := ""; imagePreview_display := "none";
     noticeArea_textContent := ""; noticeArea_className := "notice";
     noticeArea_display := "none"; imageUrl_value := ""; fileInput_value := "";
     removeImageButton_display := "none"; browseButton_textContent := "Browse" |}.

Definition blank_browser : Browser := {| page := blank_page; blog := [] |}.

Definition gif_file : File :=
  {| file_name := "cat.gif"; file_type := "image/gif";
     file_bytes := [Byte.x47; Byte.x49; Byte.x46] |}.

Definition png_file : File :=
  {| file_name := "cat.png"; file_type := "image/png";
     file_bytes := [Byte.x89; Byte.x50; Byte.x4e; Byte.x47] |}.

Definition text_file : File :=
  {| file_name := "notes.txt"; file_type := "text/plain"; file_bytes := [Byte.x68; Byte.x69] |}.

Definition one_chunk (content : bytes) : list bytes := [content].

(** What Express answers when no route takes the request: a 404 with an
    HTML page, which [response.json()] refuses. *)
Definition not_found : FetchResult :=
  Response 404 (inl (mkError "SyntaxError" None "Unexpected token < in JSON at position 0")).

Definition router_only (env : Env) (w : World)
    : FetchRequest -> list browser_event -> FetchResult :=
  fun r _ => default not_found (serve env w one_chunk r).

(** A page on which an image is chosen, and a network that is down. *)
Definition chosen_browser : Browser :=
  {| page := {| imagePreview_src := "https://blobs.example/cat-images/1-sunset.jpg";
                imagePreview_display := "block";
                noticeArea_textContent := ""; noticeArea_className := "notice";
                noticeArea_display := "none";
                imageUrl_value := "https://blobs.example/cat-images/1-sunset.jpg";
                fileInput_value := "";
                removeImageButton_display := "flex";
                browseButton_textContent := "Replace" |};
     blog := [] |}.

Definition offline : FetchRequest -> list browser_event -> FetchResult :=
  fun _ _ => NetworkError (mkError "TypeError" None "Failed to fetch").

(** A body of exactly [MAX_FILE_SIZE] bytes, in one chunk. *)
Definition full_chunk : bytes := repeat Byte.x00 (Z.to_nat MAX_FILE_SIZE).

(** ** The catalogue page (browser side): [savePhoto] and [deletePhoto]

    Both end by calling functions that rebuild or hide parts of the page
    ([loadPhotos], [window.upload.closeModalFunc]); these calls are logged. *)



Section CataloguePage.

Variable fetch : FetchRequest -> list browser_event -> FetchResult.






End CataloguePage.







(** A store on which every update meets a write conflict. *)
Definition conflict_env : Env :=
  {| store_fault := fun c _ =>
       match c with
       | Update _ _ => Some (mkError "PrismaClientKnownRequestError" (Some "P2034")
                               "Transaction failed due to a write conflict or a deadlock.")
       | _ => None
       end;
     fresh_id := fresh_id quiet_env;
     blob_del := blob_del quiet_env;
     blob_put := blob_put quiet_env;
     sharp_toBuffer := sharp_toBuffer quiet_env;
     date_now := date_now quiet_env;
     decodeURIComponent := decodeURIComponent quiet_env |}.

(** * Properties *)

(** ** The monad and the trace *)

Lemma events_of_app {A} (m : M A) (w : World) (t : list event) :
  trace (run m w) = trace w ++ t -> events_of m w = t.
Proof.
  intros E. unfold events_of. rewrite E. apply drop_app_length.
Qed.

Lemma bind_run {A B} (m : M A) (k : A -> M B) (w w' : World) (a : A) :
  m w = (Ok a, w') -> bind m k w = k a w'.
Proof. intros E. unfold bind. now rewrite E. Qed.

Lemma bind_assoc {A B C : Type} (m : M A) (f : A -> M B) (g : B -> M C) (w : World) :
  bind (bind m f) g w = bind m (fun x => bind (f x) g) w.
Proof. unfold bind. destruct (m w) as [[x | e] w1]; reflexivity. Qed.

Lemma bind_throw {A B} (m : M A) (k : A -> M B) (w w' : World) (e : error) :
  m w = (Throw e, w') -> bind m k w = (Throw e, w').
Proof. intros E. unfold bind. now rewrite E. Qed.

Lemma try_catch_ok {A} (m : M A) (h : error -> M A) (w w' : World) (a : A) :
  m w = (Ok a, w') -> try_catch m h w = (Ok a, w').
Proof. intros E. unfold try_catch. now rewrite E. Qed.

Lemma try_catch_throw {A} (m : M A) (h : error -> M A) (w w' : World) (e : error) :
  m w = (Throw e, w') -> try_catch m h w = h e w'.
Proof. intros E. unfold try_catch. now rewrite E. Qed.

Lemma extend_extend (w : World) (t u : list event) :
  extend (extend w t) u = extend w (t ++ u).
Proof. unfold extend. cbn [db trace]. now rewrite app_assoc. Qed.

Lemma count_app (p : event -> bool) (t u : list event) :
  count p (t ++ u) = (count p t + count p u)%nat.
Proof. unfold count. now rewrite List.filter_app, length_app. Qed.

Lemma responses_app (t u : list event) :
  responses (t ++ u) = responses t ++ responses u.
Proof. apply omap_app. Qed.

Lemma retry_events_counts (c : store_call) (conflicts : list error) :
  count is_sleep (retry_events c conflicts) = length conflicts /\
  count is_update (retry_events c conflicts) =
    (if is_update (EvStore c None) then length conflicts else 0%nat) /\
  responses (retry_events c conflicts) = [].
Proof.
  induction conflicts as [|e l (IH1 & IH2 & IH3)].
  - cbn. now destruct c.
  - change (retry_events c (e :: l))
      with ([EvStore c (Some e); EvSleep 100] ++ retry_events c l).
    rewrite !count_app, responses_app, IH1, IH2, IH3.
    destruct c; cbn; auto.
Qed.

Lemma truthy_string (s : string) : truthy (VStr s) = true <-> s <> "".
Proof.
  simpl. rewrite negb_true_iff. split.
  - intros E ->. discriminate.
  - intros N. destruct (String.eqb_spec s ""); congruence.
Qed.

(** ** [DELETE /data/:id] *)

Section DeleteRecord.

Variable env : Env.
Variable w : World.
Variable id : string.

Lemma findUnique_ok :
  store_fault env (FindUnique id) (trace w) = None ->
  prisma_findUnique env id w =
    (Ok (db w !! id),
     {| db := db w; trace := trace w ++ [EvStore (FindUnique id) None] |}).
Proof.
  intros F. unfold prisma_findUnique, store_op. now rewrite F.
Qed.

Lemma findUnique_fault (e : error) :
  store_fault env (FindUnique id) (trace w) = Some e ->
  prisma_findUnique env id w =
    (Throw e,
     {| db := db w; trace := trace w ++ [EvStore (FindUnique id) (Some e)] |}).
Proof.
  intros F. unfold prisma_findUnique, store_op. now rewrite F.
Qed.

(** The whole run of the handler on an existing record. *)
Lemma delete_data_found (photo : obj) :
  db w !! id = Some photo ->
  store_answers env (trace w) [FindUnique id; Delete id] ->
  let url := get "imageUrl" photo in
  let t1 := trace w ++ [EvStore (FindUnique id) None; EvStore (Delete id) None] in
  run (delete_data env id) w =
    {| db := delete id (db w);
       trace := trace w ++
                [EvStore (FindUnique id) None; EvStore (Delete id) None] ++
                (if truthy url
                 then [EvBlobDel url (blob_del env url t1);
                       match blob_del env url t1 with
                       | None => EvLog "Deleted image:" url
                       | Some e => EvError "Failed to delete image:" e
                       end]
                 else []) ++
                [EvRespond 200 (VObj photo)] |}.
Proof.
  intros Hrec (Hf & Hd & _) url t1.
  unfold run, delete_data, try_catch.
  rewrite (bind_run _ _ _ _ _ (findUnique_ok Hf)).
  unfold bind at 1. unfold prisma_delete, store_op. cbn [db trace].
  rewrite Hd, Hrec. cbn [imageUrl_of]. fold url.
  replace ((trace w ++ [EvStore (FindUnique id) None]) ++ [EvStore (Delete id) None])
    with t1 by (unfold t1; now rewrite <- app_assoc).
  destruct (truthy url) eqn:T.
  - unfold bind, try_catch, del, console_log, console_error, respond, emit, ret.
    cbn [db trace]. destruct (blob_del env url t1) eqn:B; cbn [db trace snd];
      unfold t1; now rewrite <- !app_assoc.
  - unfold bind, respond, emit, ret. cbn [db trace snd].
    unfold t1; now rewrite <- !app_assoc.
Qed.

Lemma delete_data_absent :
  db w !! id = None ->
  exists e : error,
    run (delete_data env id) w =
      {| db := db w;
         trace := trace w ++
                  match store_fault env (FindUnique id) (trace w) with
                  | Some _ => [EvStore (FindUnique id) (Some e)]
                  | None => [EvStore (FindUnique id) None; EvStore (Delete id) (Some e)]
                  end ++
                  [EvError "DELETE /data/:id error:" e;
                   EvRespond 500 (object [("error", VStr "Failed to delete record");
                                          ("details", message_or_error e)])] |} /\
    (store_answers env (trace w) [FindUnique id; Delete id] ->
     e = P2025 "Record to delete does not exist.").
Proof.
  intros Hrec.
  unfold run, delete_data, try_catch.
  destruct (store_fault env (FindUnique id) (trace w)) as [e|] eqn:Hf.
  - exists e. split; [| intros (? & _); congruence].
    rewrite (bind_throw _ _ _ _ _ (findUnique_fault _ Hf)).
    unfold bind, console_error, respond, emit. cbn [db trace snd].
    now rewrite <- !app_assoc.
  - rewrite (bind_run _ _ _ _ _ (findUnique_ok Hf)).
    unfold bind at 1. unfold prisma_delete, store_op. cbn [db trace]. rewrite Hrec.
    destruct (store_fault env (Delete id) (trace w ++ [EvStore (FindUnique id) None]))
      as [e|] eqn:Hd.
    + exists e. split; [| intros (_ & ? & _); congruence].
      unfold bind, console_error, respond, emit. cbn [db trace snd].
      now rewrite <- !app_assoc.
    + exists (P2025 "Record to delete does not exist."). split; [| reflexivity].
      unfold bind, console_error, respond, emit. cbn [db trace snd].
      now rewrite <- !app_assoc.
Qed.

End DeleteRecord.

(** C1: deleting an existing record removes it from the store first; the
    blob-delete call [del(imageUrl)] is then issued exactly once if the
    record's [imageUrl] is non-empty (truthy) and not at all otherwise; a
    failure of that call is caught and logged, and the response is the
    success payload of the record deletion whatever the blob store did. *)
Theorem delete_data_existing_record (env : Env) (w : World) (id : string) (photo : obj) :
  db w !! id = Some photo ->
  store_answers env (trace w) [FindUnique id; Delete id] ->
  let url := get "imageUrl" photo in
  let t := events_of (delete_data env id) w in
  let blob_outcome :=
    blob_del env url (trace w ++ [EvStore (FindUnique id) None; EvStore (Delete id) None]) in
  db (run (delete_data env id) w) = delete id (db w) /\
  t = [EvStore (FindUnique id) None; EvStore (Delete id) None] ++
      (if truthy url
       then [EvBlobDel url blob_outcome;
             match blob_outcome with
             | None => EvLog "Deleted image:" url
             | Some e => EvError "Failed to delete image:" e
             end]
       else []) ++
      [EvRespond 200 (VObj photo)] /\
  count is_blob_del t = (if truthy url then 1 else 0)%nat /\
  (forall s, url = VStr s -> count is_blob_del t = 1%nat <-> s <> "") /\
  (photo !! "imageUrl" = None -> count is_blob_del t = 0%nat) /\
  responses t = [(200, VObj photo)].
Proof.
  intros Hrec Hst url t blob_outcome.
  pose proof (delete_data_found env w id photo Hrec Hst) as R. cbv zeta in R.
  assert (Et : t = [EvStore (FindUnique id) None; EvStore (Delete id) None] ++
      (if truthy url
       then [EvBlobDel url blob_outcome;
             match blob_outcome with
             | None => EvLog "Deleted image:" url
             | Some e => EvError "Failed to delete image:" e
             end]
       else []) ++
      [EvRespond 200 (VObj photo)]).
  { apply events_of_app. now rewrite R. }
  assert (Ec : count is_blob_del t = (if truthy url then 1 else 0)%nat).
  { rewrite Et. destruct (truthy url); [destruct blob_outcome |]; reflexivity. }
  split; [now rewrite R |]. split; [exact Et |]. split; [exact Ec |].
  split; [| split].
  - intros s Hs. rewrite Ec, Hs, <- truthy_string.
    destruct (truthy (VStr s)); split; congruence.
  - intros Hnone. rewrite Ec. unfold url, get. now rewrite Hnone.
  - rewrite Et. destruct (truthy url); [destruct blob_outcome |]; reflexivity.
Qed.

(** C10: deleting an identifier that matches no record answers 500 with
    [{error: 'Failed to delete record', details}]: the store's not-found
    error reaches the generic handler (there is no 404), and no blob-delete
    call is issued. *)
Theorem delete_data_missing_record (env : Env) (w : World) (id : string) :
  db w !! id = None ->
  let t := events_of (delete_data env id) w in
  (exists details : value,
     responses t = [(500, object [("error", VStr "Failed to delete record");
                                  ("details", details)])] /\
     (store_answers env (trace w) [FindUnique id; Delete id] ->
      details = VStr "Record to delete does not exist.")) /\
  count is_blob_del t = 0%nat /\
  db (run (delete_data env id) w) = db w.
Proof.
  intros Hrec t.
  destruct (delete_data_absent env w id Hrec) as (e & R & He).
  assert (Et : t = match store_fault env (FindUnique id) (trace w) with
                   | Some _ => [EvStore (FindUnique id) (Some e)]
                   | None => [EvStore (FindUnique id) None; EvStore (Delete id) (Some e)]
                   end ++
                   [EvError "DELETE /data/:id error:" e;
                    EvRespond 500 (object [("error", VStr "Failed to delete record");
                                           ("details", message_or_error e)])]).
  { apply events_of_app. now rewrite R. }
  split; [| split].
  - exists (message_or_error e). split.
    + rewrite Et. now destruct (store_fault env (FindUnique id) (trace w)).
    + intros Hst. now rewrite (He Hst).
  - rewrite Et. now destruct (store_fault env (FindUnique id) (trace w)).
  - now rewrite R.
Qed.

(** ** [PUT /data/:id] *)

(** The handler's test [err.code === 'P2034'] in terms of the error's code. *)
Lemma is_write_conflict_code (e : error) :
  is_write_conflict e = true <-> err_code e = Some "P2034".
Proof.
  unfold is_write_conflict. destruct (err_code e) as [c|]; [| split; discriminate].
  rewrite String.eqb_eq. split; [now intros -> | now intros [= ->]].
Qed.

Lemma is_write_conflict_other (e : error) :
  is_write_conflict e = false <-> err_code e <> Some "P2034".
Proof.
  rewrite <- is_write_conflict_code. destruct (is_write_conflict e); split; congruence.
Qed.

Lemma retry_events_store (c c' : store_call) (conflicts : list error) (f : option error) :
  EvStore c' f ∈ retry_events c conflicts -> c' = c.
Proof.
  induction conflicts as [|e l IH]; cbn.
  - intros H. inversion H.
  - rewrite !elem_of_cons. intros [H | [H | H]]; [congruence | discriminate | auto].
Qed.

Lemma put_ending_store (id : string) (data : obj) (n : nat) (ending : list event) :
  put_ending id data n ending ->
  (exists f tail, ending = EvStore (Update id data) f :: tail) /\
  (forall c f, EvStore c f ∈ ending -> c = Update id data).
Proof.
  intros H. inversion H; subst; (split; [eauto |]); intros c f;
    rewrite !elem_of_cons, elem_of_nil; intros Hin;
    repeat (destruct Hin as [Hin | Hin]; [congruence || discriminate |]); contradiction.
Qed.

Section UpdateRecord.

Variable env : Env.
Variable id : string.
Variable data : obj.

(** The store either reports an error, or applies the update. *)
Lemma prisma_update_cases (w : World) :
  (exists e, prisma_update env id data w =
               (Throw e, extend w [EvStore (Update id data) (Some e)])) \/
  (exists r, db w !! id = Some r /\
             prisma_update env id data w =
               (Ok (data ∪ r),
                {| db := <[id := data ∪ r]> (db w);
                   trace := trace w ++ [EvStore (Update id data) None] |})).
Proof.
  unfold prisma_update, store_op, extend.
  destruct (store_fault env (Update id data) (trace w)) as [e|]; [left; eauto |].
  destruct (db w !! id) as [r|]; [right | left]; eauto.
Qed.

(** The [catch] block: a retry on a conflict before the last attempt, a
    409 on a conflict at the last attempt, a 500 otherwise. *)
Lemma put_catch_cases (attempt : nat) (e : error) (w : World) :
  (is_write_conflict e = true /\ (attempt < 2)%nat /\
   put_catch attempt e w = (Ok true, extend w [EvSleep 100])) \/
  (is_write_conflict e = true /\ (2 <= attempt)%nat /\
   put_catch attempt e w =
     (Ok false,
      extend w [EvRespond 409 (object [("error", VStr "Write conflict, please retry")])])) \/
  (is_write_conflict e = false /\
   put_catch attempt e w =
     (Ok false,
      extend w [EvError "PUT /data/:id error:" e;
                EvRespond 500 (object [("error", VStr "Failed to update record")])])).
Proof.
  unfold put_catch. destruct (is_write_conflict e).
  - destruct (attempt <? 2)%nat eqn:L.
    + left. apply Nat.ltb_lt in L. auto.
    + right; left. apply Nat.ltb_ge in L. auto.
  - right; right. split; [reflexivity |].
    unfold bind, console_error, respond, emit, ret, extend. cbn [db trace].
    now rewrite <- app_assoc.
Qed.

(** The retry loop from a given attempt on, with the iterations that are
    left: the conflicts it retried, and how it ended. *)
Lemma put_loop_shape (n attempt : nat) (w : World) :
  (attempt + n = 3)%nat -> (1 <= n)%nat ->
  exists (conflicts : list error) (ending : list event) (d : gmap string obj),
    for_loop n attempt (put_attempt env id data) w =
      (Ok tt, {| db := d;
                 trace := trace w ++ retry_events (Update id data) conflicts ++ ending |}) /\
    Forall (fun e => is_write_conflict e = true) conflicts /\
    (length conflicts < n)%nat /\
    put_ending id data (attempt + length conflicts) ending /\
    (d = db w \/ exists r, db w !! id = Some r /\ d = <[id := data ∪ r]> (db w)).
Proof.
  revert attempt w. induction n as [|n IH]; intros attempt w Hsum Hn; [lia |].
  cbn [for_loop]. unfold put_attempt at 1.
  destruct (prisma_update_cases w) as [(e & Hu) | (r & Hr & Hu)].
  - (* the store reported an error *)
    unfold bind at 1. rewrite (try_catch_throw _ _ _ _ _ (bind_throw _ _ _ _ _ Hu)).
    destruct (put_catch_cases attempt e (extend w [EvStore (Update id data) (Some e)]))
      as [(C & L & ->) | [(C & L & ->) | (C & ->)]].
    + (* conflict, attempts left: sleep and go on *)
      rewrite extend_extend. cbn [app].
      destruct (IH (S attempt) (extend w [EvStore (Update id data) (Some e); EvSleep 100]))
        as (conflicts & ending & d & Hl & Hc & Hlen & Hend & Hdb); [lia | lia |].
      exists (e :: conflicts), ending, d. rewrite Hl. cbn [extend db trace].
      split; [now rewrite <- !app_assoc |]. split; [now constructor |].
      split; [cbn [length]; lia |]. split; [| exact Hdb].
      cbn [length]. now replace (attempt + S (length conflicts))%nat
        with (S attempt + length conflicts)%nat by lia.
    + (* conflict at the last attempt *)
      assert (attempt = 2%nat) as -> by lia.
      exists [], [EvStore (Update id data) (Some e);
                  EvRespond 409 (object [("error", VStr "Write conflict, please retry")])],
             (db w).
      rewrite extend_extend. unfold ret, extend. cbn [retry_events flat_map app length].
      repeat split; [constructor | lia | now constructor | now left].
    + (* another error *)
      exists [], [EvStore (Update id data) (Some e);
                  EvError "PUT /data/:id error:" e;
                  EvRespond 500 (object [("error", VStr "Failed to update record")])],
             (db w).
      rewrite extend_extend. unfold ret, extend. cbn [retry_events flat_map app length].
      split; [reflexivity |]. split; [constructor |]. split; [lia |].
      split; [| now left].
      rewrite Nat.add_0_r. now constructor.
  - (* the update went through *)
    unfold bind at 1.
    erewrite try_catch_ok.
    2:{ rewrite (bind_run _ _ _ _ _ Hu).
        unfold bind, console_log, respond, emit, ret. cbn [db trace]. reflexivity. }
    exists [], [EvStore (Update id data) None;
                EvLog ("PUT /data/" +:+ id +:+ " successful on attempt "
                         +:+ pretty attempt +:+ ":") (VObj (data ∪ r));
                EvRespond 200 (VObj (data ∪ r))], (<[id := data ∪ r]> (db w)).
    unfold ret. cbn [retry_events flat_map app length].
    split; [now rewrite <- !app_assoc |]. split; [constructor |]. split; [lia |].
    split; [| right; eauto].
    rewrite Nat.add_0_r. constructor.
Qed.

(** An error reported by the store comes with its store event. *)
Lemma prisma_update_throw (w : World) (e : error) :
  fst (prisma_update env id data w) = Throw e ->
  prisma_update env id data w = (Throw e, extend w [EvStore (Update id data) (Some e)]).
Proof.
  destruct (prisma_update_cases w) as [(e' & H) | (r & _ & H)]; rewrite H; cbn [fst].
  - now intros [= ->].
  - discriminate.
Qed.

(** An iteration in which the store reported an error goes on as the
    [catch] block says. *)
Lemma put_loop_throw (n attempt : nat) (w : World) (e : error) :
  fst (prisma_update env id data w) = Throw e ->
  for_loop (S n) attempt (put_attempt env id data) w =
    (again <- put_catch attempt e ;;
     if again then for_loop n (S attempt) (put_attempt env id data) else ret tt)
      (extend w [EvStore (Update id data) (Some e)]).
Proof.
  intros Hu. apply prisma_update_throw in Hu.
  cbn [for_loop]. unfold put_attempt at 1. unfold bind at 1.
  rewrite (try_catch_throw _ _ _ _ _ (bind_throw _ _ _ _ _ Hu)). reflexivity.
Qed.

(** Every attempt starts with the call of the store. *)
Lemma put_loop_head (n attempt : nat) (w : World) :
  (attempt + n = 3)%nat -> (1 <= n)%nat ->
  exists (f : option error) (rest : list event) (d : gmap string obj),
    for_loop n attempt (put_attempt env id data) w =
      (Ok tt, {| db := d; trace := trace w ++ EvStore (Update id data) f :: rest |}).
Proof.
  intros Hsum Hn.
  destruct (put_loop_shape n attempt w Hsum Hn)
    as (conflicts & ending & d & Hl & _ & _ & Hend & _).
  destruct (put_ending_store _ _ _ _ Hend) as ((f & tail & ->) & _).
  rewrite Hl. destruct conflicts as [|e conflicts]; cbn [retry_events flat_map app];
    eexists _, _, d; reflexivity.
Qed.

(** On a store that meets a write conflict at every update, the loop
    retries as long as attempts are left and ends with the 409. *)
Lemma put_loop_conflicts (n attempt : nat) (w : World) :
  (attempt + n = 3)%nat -> (1 <= n)%nat ->
  (forall h, exists e, store_fault env (Update id data) h = Some e /\
                       err_code e = Some "P2034") ->
  exists (retried : list error) (e : error),
    S (length retried) = n /\
    Forall (fun e => err_code e = Some "P2034") retried /\
    err_code e = Some "P2034" /\
    for_loop n attempt (put_attempt env id data) w =
      (Ok tt,
       extend w (retry_events (Update id data) retried ++
                 [EvStore (Update id data) (Some e);
                  EvRespond 409 (object [("error", VStr "Write conflict, please retry")])])).
Proof.
  intros Hsum Hn Hall. revert attempt w Hsum Hn.
  induction n as [|n IH]; intros attempt w Hsum Hn; [lia |].
  destruct (Hall (trace w)) as (e & Hf & Hcode).
  assert (Hu : fst (prisma_update env id data w) = Throw e).
  { unfold prisma_update, store_op. now rewrite Hf. }
  rewrite (put_loop_throw _ _ _ _ Hu).
  apply is_write_conflict_code in Hcode as Hc.
  unfold put_catch. rewrite Hc.
  destruct (attempt <? 2)%nat eqn:L.
  - apply Nat.ltb_lt in L.
    destruct (IH (S attempt) (extend w [EvStore (Update id data) (Some e); EvSleep 100]))
      as (retried & e' & Hlen & Hre & Hcode' & Hl); [lia | lia |].
    exists (e :: retried), e'. split; [cbn [length]; lia |].
    split; [now constructor |]. split; [exact Hcode' |].
    unfold bind at 1 2, sleep, emit, ret. cbn [db trace extend].
    rewrite <- (app_assoc (trace w)). cbn [app].
    unfold extend in Hl. cbn [db trace] in Hl. rewrite Hl.
    unfold extend. cbn [db trace retry_events flat_map app].
    now rewrite <- !app_assoc.
  - apply Nat.ltb_ge in L. assert (n = 0%nat) as -> by lia.
    exists [], e. split; [reflexivity |]. split; [constructor |]. split; [exact Hcode |].
    unfold bind, respond, emit, ret, extend. cbn [db trace retry_events flat_map app].
    now rewrite <- app_assoc.
Qed.

(** A write conflict at the first attempt is followed by the delay and a
    second call of the store. *)
Lemma put_loop_retries (w : World) (e : error) :
  fst (prisma_update env id data w) = Throw e ->
  err_code e = Some "P2034" ->
  exists (f : option error) (rest : list event) (d : gmap string obj),
    for_loop 3 0 (put_attempt env id data) w =
      (Ok tt, {| db := d;
                 trace := trace w ++ EvStore (Update id data) (Some e) :: EvSleep 100
                            :: EvStore (Update id data) f :: rest |}).
Proof.
  intros Hu Hcode. rewrite (put_loop_throw _ _ _ _ Hu).
  apply is_write_conflict_code in Hcode. unfold put_catch. rewrite Hcode.
  cbn [Nat.ltb Nat.leb]. unfold bind at 1 2, sleep, emit, ret. cbn [db trace extend].
  destruct (put_loop_head 2 1
              {| db := db w;
                 trace := (trace w ++ [EvStore (Update id data) (Some e)]) ++ [EvSleep 100] |})
    as (f & rest & d & Hl); [reflexivity | lia |].
  exists f, rest, d. rewrite Hl. cbn [db trace]. now rewrite <- !app_assoc.
Qed.

(** Any other error ends the loop at once with the 500. *)
Lemma put_loop_fails (n attempt : nat) (w : World) (e : error) :
  fst (prisma_update env id data w) = Throw e ->
  err_code e <> Some "P2034" ->
  for_loop (S n) attempt (put_attempt env id data) w =
    (Ok tt,
     extend w [EvStore (Update id data) (Some e);
               EvError "PUT /data/:id error:" e;
               EvRespond 500 (object [("error", VStr "Failed to update record")])]).
Proof.
  intros Hu Hcode. rewrite (put_loop_throw _ _ _ _ Hu).
  apply is_write_conflict_other in Hcode. unfold put_catch. rewrite Hcode.
  unfold bind, console_error, respond, emit, ret, extend. cbn [db trace].
  now rewrite <- !app_assoc.
Qed.

End UpdateRecord.

(** C4: the update is attempted at most 3 times, and what decides is the
    code of the error the store reports.  An attempt is repeated, after a
    fixed delay of 100 ms, only after an error with code [P2034] (the
    write conflict); a [P2034] at the third attempt is answered with 409;
    an error with any other code is answered with 500 at once; and every
    run ends normally with exactly one response: the updated record, the
    409, or the 500.  In particular a [P2034] at the first attempt is
    followed by the delay and a second call of the store, an error with
    another code by no further call, and a store that meets a conflict at
    every update is called three times, with two delays, before the 409. *)
Theorem put_data_bounded_retry (env : Env) (w : World) (id : string) (body : option obj) :
  let data := put_requestBody body in
  let update := Update id data in
  let t := events_of (put_data env id body) w in
  let conflict := EvRespond 409 (object [("error", VStr "Write conflict, please retry")]) in
  let failed := EvRespond 500 (object [("error", VStr "Failed to update record")]) in
  fst (put_data env id body w) = Ok tt /\
  (exists (conflicts : list error) (ending : list event),
     t = retry_events update conflicts ++ ending /\
     Forall (fun e => err_code e = Some "P2034") conflicts /\
     ((exists updated : obj,
         ending = [EvStore update None;
                   EvLog ("PUT /data/" +:+ id +:+ " successful on attempt "
                            +:+ pretty (length conflicts) +:+ ":") (VObj updated);
                   EvRespond 200 (VObj updated)]) \/
      (exists e, err_code e = Some "P2034" /\ length conflicts = 2%nat /\
                 ending = [EvStore update (Some e); conflict]) \/
      (exists e, err_code e <> Some "P2034" /\
                 ending = [EvStore update (Some e);
                           EvError "PUT /data/:id error:" e; failed])) /\
     count is_update t = S (length conflicts) /\
     (count is_update t <= 3)%nat /\
     count is_sleep t = length conflicts /\
     exists (status : Z) (b : value),
       responses t = [(status, b)] /\
       (status = 200 \/ status = 409 /\ length conflicts = 2%nat \/ status = 500)) /\
  (forall e, fst (prisma_update env id data w) = Throw e ->
             err_code e = Some "P2034" ->
             exists f rest,
               t = EvStore update (Some e) :: EvSleep 100 :: EvStore update f :: rest) /\
  (forall e, fst (prisma_update env id data w) = Throw e ->
             err_code e <> Some "P2034" ->
             t = [EvStore update (Some e); EvError "PUT /data/:id error:" e; failed]) /\
  ((forall h, exists e, store_fault env update h = Some e /\ err_code e = Some "P2034") ->
   exists e1 e2 e3,
     err_code e1 = Some "P2034" /\ err_code e2 = Some "P2034" /\
     err_code e3 = Some "P2034" /\
     t = [EvStore update (Some e1); EvSleep 100;
          EvStore update (Some e2); EvSleep 100;
          EvStore update (Some e3); conflict]).
Proof.
  intros data update t conflict failed. subst update conflict failed.
  destruct (put_loop_shape env id data 3 0 w) as (conflicts & ending & d & Hl & Hc & Hlen & Hend & _);
    [reflexivity | lia |].
  cbn [Nat.add] in Hend.
  assert (Hrun : put_data env id body w =
            (Ok tt, {| db := d;
                       trace := trace w ++ retry_events (Update id data) conflicts ++ ending |}))
    by exact Hl.
  assert (Et : t = retry_events (Update id data) conflicts ++ ending).
  { apply events_of_app. unfold run. now rewrite Hrun. }
  split; [now rewrite Hrun |]. split.
  { exists conflicts, ending.
    destruct (retry_events_counts (Update id data) conflicts) as (Hs & Hu & Hr).
    cbn [is_update] in Hu.
    split; [exact Et |]. split.
    { eapply Forall_impl; [exact Hc |]. intros e. apply is_write_conflict_code. }
    rewrite Et, !count_app, responses_app, Hs, Hu, Hr.
    inversion Hend as [attempt updated Ea Ee | e C Ea Ee | attempt e C Ea Ee]; subst ending.
    - split; [left; eauto |]. cbn. split; [lia |]. split; [lia |]. split; [lia |].
      eexists _, _. split; [reflexivity |]. auto.
    - apply is_write_conflict_code in C.
      split; [right; left; exists e; auto |]. cbn. split; [lia |]. split; [lia |].
      split; [lia |]. eexists _, _. split; [reflexivity |]. auto.
    - apply is_write_conflict_other in C.
      split; [right; right; exists e; auto |]. cbn. split; [lia |]. split; [lia |].
      split; [lia |]. eexists _, _. split; [reflexivity |]. auto. }
  split.
  { intros e Hu Hcode.
    destruct (put_loop_retries env id data w e Hu Hcode) as (f & rest & d' & Hl').
    exists f, rest. apply events_of_app. unfold run.
    change (put_data env id body w) with (for_loop 3 0 (put_attempt env id data) w).
    now rewrite Hl'. }
  split.
  { intros e Hu Hcode. apply events_of_app. unfold run.
    change (put_data env id body w) with (for_loop 3 0 (put_attempt env id data) w).
    now rewrite (put_loop_fails env id data 2 0 w e Hu Hcode). }
  intros Hall.
  destruct (put_loop_conflicts env id data 3 0 w) as (retried & e3 & Hn & Hre & H3 & Hl');
    [reflexivity | lia | exact Hall |].
  destruct retried as [|e1 [|e2 [|? ?]]]; cbn [length] in Hn; try lia.
  inversion Hre as [|? ? H1 Hre']; subst. inversion Hre' as [|? ? H2 _]; subst.
  exists e1, e2, e3. repeat (split; [assumption |]).
  apply events_of_app. unfold run.
  change (put_data env id body w) with (for_loop 3 0 (put_attempt env id data) w).
  now rewrite Hl'.
Qed.

(** A store that meets a write conflict at every update: three calls, two
    delays of 100 ms, then the 409. *)
Lemma put_data_bounded_retry_witness :
  let t := events_of (put_data conflict_env "p1" (Some sample_photo)) sample_world in
  count is_update t = 3%nat /\
  count is_sleep t = 2%nat /\
  responses t = [(409, object [("error", VStr "Write conflict, please retry")])].
Proof.
  intros t.
  destruct (proj2 (proj2 (proj2 (proj2
              (put_data_bounded_retry conflict_env sample_world "p1" (Some sample_photo)))))
              (fun h => ex_intro _ (mkError "PrismaClientKnownRequestError" (Some "P2034")
                          "Transaction failed due to a write conflict or a deadlock.")
                          (conj eq_refl eq_refl)))
    as (e1 & e2 & e3 & _ & _ & _ & Et).
  subst t. rewrite Et. repeat split.
Defined.

(** ** Identifier stripping in [POST /data] and [PUT /data/:id] *)

(** The run of [POST /data] on a body. *)
Lemma post_data_run (env : Env) (w : World) (b : obj) :
  let data := delete "id" b in
  let newid := fresh_id env (trace w) in
  let created := <["id" := VStr newid]> data in
  run (post_data env (Some b)) w =
    match store_fault env (Create data) (trace w) with
    | Some e =>
        extend w [EvStore (Create data) (Some e);
                  EvError "POST /data error:" e;
                  EvRespond 500 (object [("error", VStr "Failed to create record");
                                         ("details", message_or_error e)])]
    | None =>
        {| db := <[newid := created]> (db w);
           trace := trace w ++ [EvStore (Create data) None; EvRespond 201 (VObj created)] |}
    end.
Proof.
  intros data newid created.
  unfold run, post_data, try_catch, post_createData, bind, ret, prisma_create, store_op.
  fold data. fold newid.
  destruct (store_fault env (Create data) (trace w)) as [e|];
    unfold console_error, respond, emit, extend; cbn [db trace snd];
    now rewrite <- !app_assoc.
Qed.

(** X23: what the two record handlers hand to the store.  [POST /data]
    drops [id] from the body and [PUT /data/:id] drops [id] and [_id];
    every other field goes unchanged into the one kind of store call each
    of them makes; the identifier of a created record is the one the store
    assigns, and an update addresses the record of the URL parameter,
    touches no other record and leaves its [id] field as it was. *)
Theorem body_identifier_stripped (env : Env) (w : World) (id : string) (b : obj) :
  let createData := delete "id" b in
  let requestBody := put_requestBody (Some b) in
  let t_post := events_of (post_data env (Some b)) w in
  let t_put := events_of (put_data env id (Some b)) w in
  let newid := fresh_id env (trace w) in
  (createData !! "id" = None /\
   forall k, k <> "id" -> createData !! k = b !! k) /\
  (requestBody !! "id" = None /\ requestBody !! "_id" = None /\
   forall k, k <> "id" -> k <> "_id" -> requestBody !! k = b !! k) /\
  (exists failure tail,
     t_post = EvStore (Create createData) failure :: tail /\
     forall c f, EvStore c f ∉ tail) /\
  ((exists failure tail, t_put = EvStore (Update id requestBody) failure :: tail) /\
   forall c f, EvStore c f ∈ t_put -> c = Update id requestBody) /\
  (store_fault env (Create createData) (trace w) = None ->
   db (run (post_data env (Some b)) w) =
     <[newid := <["id" := VStr newid]> createData]> (db w) /\
   responses t_post = [(201, VObj (<["id" := VStr newid]> createData))]) /\
  (forall k, k <> id -> db (run (put_data env id (Some b)) w) !! k = db w !! k) /\
  (forall r', db (run (put_data env id (Some b)) w) !! id = Some r' ->
     exists r, db w !! id = Some r /\ r' !! "id" = r !! "id").
Proof.
  intros createData requestBody t_post t_put newid.
  assert (Hput_id : requestBody !! "id" = None) by apply lookup_delete_eq.
  split; [split; [apply lookup_delete_eq | intros k Hk; now apply lookup_delete_ne] |].
  split.
  { split; [exact Hput_id |]. split.
    - unfold requestBody, put_requestBody. rewrite lookup_delete_ne by discriminate.
      apply lookup_delete_eq.
    - intros k H1 H2. unfold requestBody, put_requestBody. cbn [default].
      now rewrite !lookup_delete_ne by congruence. }
  pose proof (post_data_run env w b) as Hpost. cbv zeta in Hpost.
  fold createData newid in Hpost.
  destruct (put_loop_shape env id requestBody 3 0 w)
    as (conflicts & ending & d & Hl & Hc & Hlen & Hend & Hdb); [reflexivity | lia |].
  assert (Hrun : put_data env id (Some b) w =
            (Ok tt, {| db := d;
                       trace := trace w ++ retry_events (Update id requestBody) conflicts
                                  ++ ending |})) by exact Hl.
  assert (Et : t_put = retry_events (Update id requestBody) conflicts ++ ending).
  { apply events_of_app. unfold run. now rewrite Hrun. }
  destruct (put_ending_store _ _ _ _ Hend) as ((f0 & tail0 & Hhead) & Hstore).
  split; [| split; [| split; [| split]]].
  - destruct (store_fault env (Create createData) (trace w)) as [e|];
      eexists _, _; (split; [apply events_of_app; rewrite Hpost; cbn [extend trace];
        reflexivity |]); intros c f; rewrite !elem_of_cons, elem_of_nil;
      intros Hin; repeat (destruct Hin as [Hin | Hin]; [discriminate |]); contradiction.
  - split.
    + rewrite Et. destruct conflicts as [|e l]; cbn; [rewrite Hhead |]; eauto.
    + intros c f. rewrite Et, elem_of_app. intros [H | H];
        [eapply retry_events_store; eauto | eapply Hstore; eauto].
  - intros Hf. rewrite Hf in Hpost. split; [now rewrite Hpost |].
    replace t_post with [EvStore (Create createData) None;
                         EvRespond 201 (VObj (<["id" := VStr newid]> createData))];
      [reflexivity |].
    symmetry. apply events_of_app. now rewrite Hpost.
  - intros k Hk. unfold run. rewrite Hrun. cbn [snd db].
    destruct Hdb as [-> | (r & _ & ->)]; [reflexivity |]. now apply lookup_insert_ne.
  - intros r'. unfold run. rewrite Hrun. cbn [snd db].
    destruct Hdb as [-> | (r & Hr & ->)].
    + intros H. eauto.
    + rewrite lookup_insert_eq. intros [= <-]. exists r. split; [exact Hr |].
      now apply lookup_union_r.
Qed.

(** C8: [POST /data] strips [id] only.  A client-supplied [_id] is among
    the fields the store's create call is given, and is part of the record
    created and sent back with the 201, while [PUT /data/:id] strips [_id]
    along with [id] from the same body before its update call. *)
Theorem post_data_keeps_raw_identifier (env : Env) (w : World) (b : obj) (v : value) :
  let body := <["_id" := v]> b in
  let createData := delete "id" body in
  let requestBody := put_requestBody (Some body) in
  let t := events_of (post_data env (Some body)) w in
  let newid := fresh_id env (trace w) in
  createData !! "id" = None /\
  createData !! "_id" = Some v /\
  (exists failure tail, t = EvStore (Create createData) failure :: tail) /\
  (store_fault env (Create createData) (trace w) = None ->
   exists created,
     db (run (post_data env (Some body)) w) !! newid = Some created /\
     created !! "_id" = Some v /\
     responses t = [(201, VObj created)]) /\
  requestBody !! "id" = None /\
  requestBody !! "_id" = None /\
  (forall id, exists failure tail,
     events_of (put_data env id (Some body)) w =
       EvStore (Update id requestBody) failure :: tail).
Proof.
  intros body createData requestBody t newid.
  assert (Hraw : createData !! "_id" = Some v).
  { unfold createData, body. rewrite lookup_delete_ne by discriminate.
    apply lookup_insert_eq. }
  split; [apply lookup_delete_eq |]. split; [exact Hraw |].
  pose proof (post_data_run env w body) as Hpost. cbv zeta in Hpost.
  fold createData newid in Hpost.
  split; [| split; [| split; [| split]]].
  - destruct (store_fault env (Create createData) (trace w)) as [e|];
      eexists _, _; apply events_of_app; rewrite Hpost; cbn [extend trace]; reflexivity.
  - intros Hf. rewrite Hf in Hpost.
    exists (<["id" := VStr newid]> createData). split; [| split].
    + rewrite Hpost. cbn [db]. apply lookup_insert_eq.
    + rewrite lookup_insert_ne by discriminate. exact Hraw.
    + replace t with [EvStore (Create createData) None;
                      EvRespond 201 (VObj (<["id" := VStr newid]> createData))];
        [reflexivity |].
      symmetry. apply events_of_app. now rewrite Hpost.
  - apply lookup_delete_eq.
  - unfold requestBody, put_requestBody. rewrite lookup_delete_ne by discriminate.
    apply lookup_delete_eq.
  - intros id.
    destruct (put_loop_head env id requestBody 3 0 w) as (f & rest & d & Hl);
      [reflexivity | lia |].
    exists f, rest. apply events_of_app. unfold run.
    change (put_data env id (Some body) w)
      with (for_loop 3 0 (put_attempt env id requestBody) w).
    now rewrite Hl.
Qed.

(** ** [POST /upload] *)

Lemma total_size_nil : total_size [] = 0.
Proof. reflexivity. Qed.

Lemma total_size_cons (chunk : bytes) (body : list bytes) :
  total_size (chunk :: body) = Z.of_nat (length chunk) + total_size body.
Proof. unfold total_size. cbn [concat]. rewrite length_app. lia. Qed.

Lemma total_size_app (body rest : list bytes) :
  total_size (body ++ rest) = total_size body + total_size rest.
Proof.
  induction body as [|c body IH]; [now rewrite total_size_nil |].
  cbn [app]. rewrite !total_size_cons, IH. lia.
Qed.

Lemma total_size_nonneg (body : list bytes) : 0 <= total_size body.
Proof. unfold total_size. lia. Qed.

(** A body over the limit has a first chunk that takes the accumulated
    size past it. *)
Lemma first_chunk_over (limit acc : Z) (body : list bytes) :
  acc <= limit ->
  limit < acc + total_size body ->
  exists pre chunk rest,
    body = pre ++ chunk :: rest /\
    acc + total_size pre <= limit /\
    limit < acc + total_size (pre ++ [chunk]).
Proof.
  revert acc. induction body as [|c body IH]; intros acc Hle Hgt.
  - rewrite total_size_nil in Hgt. lia.
  - rewrite total_size_cons in Hgt.
    destruct (Z_lt_le_dec limit (acc + Z.of_nat (length c))) as [Hc | Hc].
    + exists [], c, body. cbn [app]. rewrite total_size_nil, total_size_cons, total_size_nil.
      repeat split; lia.
    + destruct (IH (acc + Z.of_nat (length c))) as (pre & chunk & rest & E & H1 & H2);
        [lia | lia |].
      exists (c :: pre), chunk, rest. cbn [app]. rewrite E, !total_size_cons.
      repeat split; lia.
Qed.

Section Upload.

Variable env : Env.
Variable info : FileInfo.

(** As soon as the accumulated size passes the limit the stream is
    destroyed and the 400 written; what follows in the body is not read. *)
Lemma flow_over_limit (body : list bytes) (st : FileState) (w : World) :
  destroyed st = false ->
  fileSize st <= MAX_FILE_SIZE ->
  MAX_FILE_SIZE < fileSize st + total_size body ->
  flow env info st body w = (Ok tt, extend w too_large).
Proof.
  revert st w. induction body as [|chunk body IH]; intros st w Hd Hle Hgt.
  - rewrite total_size_nil in Hgt. lia.
  - rewrite total_size_cons in Hgt. cbn [flow]. unfold bind at 1, on_data.
    destruct (MAX_FILE_SIZE <? fileSize st + Z.of_nat (length chunk)) eqn:L.
    + unfold bind, respond, emit, ret, extend, too_large. cbn [db trace destroyed].
      now rewrite <- app_assoc.
    + apply Z.ltb_ge in L. unfold ret. cbn [destroyed]. rewrite Hd.
      apply IH; cbn [fileSize destroyed]; [reflexivity | lia | lia].
Qed.

(** A body within the limit is accumulated whole, and then ['end'] fires. *)
Lemma flow_within_limit (body : list bytes) (st : FileState) (w : World) :
  destroyed st = false ->
  fileSize st + total_size body <= MAX_FILE_SIZE ->
  flow env info st body w =
    detached (on_end env info {| chunks := chunks st ++ body;
                                 fileSize := fileSize st + total_size body;
                                 destroyed := false |}) w.
Proof.
  revert st w. induction body as [|chunk body IH]; intros st w Hd Hle.
  - cbn [flow]. rewrite total_size_nil, app_nil_r, Z.add_0_r.
    destruct st as [cs sz ds]. cbn in Hd |- *. now rewrite Hd.
  - rewrite total_size_cons in Hle. pose proof (total_size_nonneg body).
    cbn [flow]. unfold bind at 1, on_data.
    destruct (MAX_FILE_SIZE <? fileSize st + Z.of_nat (length chunk)) eqn:L;
      [apply Z.ltb_lt in L; lia |].
    unfold ret. cbn [destroyed]. rewrite Hd.
    rewrite IH; cbn [fileSize destroyed chunks]; [| reflexivity | lia].
    rewrite <- app_assoc, total_size_cons. cbn [app].
    now rewrite Z.add_assoc.
Qed.

(** The stream is the ['data'] listener over the chunks in their order
    of arrival, and ['end'] only if none of them destroyed it. *)
Lemma flow_arrive (body : list bytes) (st : FileState) (w : World) :
  destroyed st = false ->
  flow env info st body w =
    (st' <- arrive st body ;;
     if destroyed st' then ret tt else detached (on_end env info st')) w.
Proof.
  revert st w. induction body as [|chunk body IH]; intros st w Hd.
  - cbn [flow arrive]. unfold bind, ret. now rewrite Hd.
  - cbn [flow arrive]. rewrite bind_assoc. unfold bind at 1 2, on_data.
    destruct (MAX_FILE_SIZE <? fileSize st + Z.of_nat (length chunk)) eqn:L.
    + unfold bind, respond, emit, ret, extend. cbn [db trace destroyed]. reflexivity.
    + unfold ret at 1 2. cbn [destroyed]. rewrite Hd.
      now rewrite IH by (cbn [destroyed]; reflexivity).
Qed.

(** While the accumulated size stays within the limit the chunks are only
    collected. *)
Lemma arrive_within_limit (arrived : list bytes) (st : FileState) (w : World) :
  destroyed st = false ->
  fileSize st + total_size arrived <= MAX_FILE_SIZE ->
  arrive st arrived w =
    (Ok {| chunks := chunks st ++ arrived;
           fileSize := fileSize st + total_size arrived;
           destroyed := false |}, w).
Proof.
  revert st w. induction arrived as [|chunk body IH]; intros st w Hd Hle.
  - cbn [arrive]. rewrite total_size_nil, app_nil_r, Z.add_0_r.
    destruct st as [cs sz ds]. cbn in Hd |- *. now rewrite Hd.
  - rewrite total_size_cons in Hle. pose proof (total_size_nonneg body).
    cbn [arrive]. unfold bind at 1, on_data.
    destruct (MAX_FILE_SIZE <? fileSize st + Z.of_nat (length chunk)) eqn:L;
      [apply Z.ltb_lt in L; lia |].
    unfold ret at 1. cbn [destroyed]. rewrite Hd.
    rewrite IH; cbn [fileSize destroyed chunks]; [| reflexivity | lia].
    rewrite <- app_assoc, total_size_cons. cbn [app].
    now rewrite Z.add_assoc.
Qed.

(** The chunk that takes the accumulated size past the limit destroys the
    stream and writes the 400 on its arrival; it is not collected, and
    whatever arrives later is not read. *)
Lemma arrive_over_limit (pre : list bytes) (chunk : bytes) (later : list bytes)
    (st : FileState) (w : World) :
  destroyed st = false ->
  fileSize st + total_size pre <= MAX_FILE_SIZE ->
  MAX_FILE_SIZE < fileSize st + total_size (pre ++ [chunk]) ->
  arrive st (pre ++ chunk :: later) w =
    (Ok {| chunks := chunks st ++ pre;
           fileSize := fileSize st + total_size (pre ++ [chunk]);
           destroyed := true |}, extend w too_large).
Proof.
  revert st w. induction pre as [|c pre IH]; intros st w Hd Hle Hgt.
  - cbn [app] in *. rewrite total_size_cons, total_size_nil in Hgt.
    rewrite total_size_cons, total_size_nil, app_nil_r.
    cbn [arrive]. unfold bind at 1, on_data.
    destruct (MAX_FILE_SIZE <? fileSize st + Z.of_nat (length chunk)) eqn:L;
      [| apply Z.ltb_ge in L; lia].
    unfold bind, respond, emit, ret, extend, too_large. cbn [db trace destroyed].
    rewrite <- app_assoc, Z.add_0_r. reflexivity.
  - cbn [app] in *. rewrite total_size_cons in Hle, Hgt.
    pose proof (total_size_nonneg pre).
    cbn [arrive]. unfold bind at 1, on_data.
    destruct (MAX_FILE_SIZE <? fileSize st + Z.of_nat (length c)) eqn:L;
      [apply Z.ltb_lt in L; lia |].
    unfold ret at 1. cbn [destroyed]. rewrite Hd.
    rewrite IH; cbn [fileSize destroyed chunks]; [| reflexivity | lia | lia].
    rewrite <- app_assoc, total_size_cons. cbn [app].
    now rewrite Z.add_assoc.
Qed.

Lemma on_file_allowed (w : World) :
  array_includes ALLOWED_TYPES (mimeType info) = true ->
  on_file info w = (Ok true, w).
Proof. intros A. unfold on_file, try_catch. now rewrite A. Qed.

Lemma on_file_refused (w : World) :
  array_includes ALLOWED_TYPES (mimeType info) = false ->
  on_file info w =
    (Ok false,
     extend w [EvRespond 400 (object [("error",
                 VStr "Invalid file type. Only images allowed.")])]).
Proof. intros A. unfold on_file, try_catch. now rewrite A. Qed.

(** The three courses of an upload. *)
Lemma post_upload_refused (body : list bytes) (w : World) :
  array_includes ALLOWED_TYPES (mimeType info) = false ->
  post_upload env info body w =
    (Ok tt,
     extend w [EvRespond 400 (object [("error",
                 VStr "Invalid file type. Only images allowed.")])]).
Proof.
  intros A. unfold post_upload. now rewrite (bind_run _ _ _ _ _ (on_file_refused w A)).
Qed.

Lemma post_upload_over_limit (body : list bytes) (w : World) :
  array_includes ALLOWED_TYPES (mimeType info) = true ->
  MAX_FILE_SIZE < total_size body ->
  post_upload env info body w = (Ok tt, extend w too_large).
Proof.
  intros A L. unfold post_upload. rewrite (bind_run _ _ _ _ _ (on_file_allowed w A)).
  apply flow_over_limit; cbn [fileSize destroyed]; [reflexivity | | lia].
  unfold MAX_FILE_SIZE. lia.
Qed.

Lemma post_upload_within_limit (body : list bytes) (w : World) :
  array_includes ALLOWED_TYPES (mimeType info) = true ->
  total_size body <= MAX_FILE_SIZE ->
  post_upload env info body w =
    detached (on_end env info {| chunks := body;
                                 fileSize := total_size body;
                                 destroyed := false |}) w.
Proof.
  intros A L. unfold post_upload. rewrite (bind_run _ _ _ _ _ (on_file_allowed w A)).
  rewrite flow_within_limit; cbn [fileSize destroyed chunks]; [reflexivity | reflexivity | lia].
Qed.

(** The transcoding step adds at most the one call of sharp to the trace. *)
Lemma transcode_cases (buffer : bytes) (w : World) :
  (string_includes (mimeType info) "svg" = true /\
   transcode env info buffer w = (Ok (buffer, mimeType info), w)) \/
  (string_includes (mimeType info) "svg" = false /\
   exists out,
     sharp_toBuffer env transcode_pipeline buffer = inr out /\
     transcode env info buffer w =
       (Ok (out, "image/jpeg"), extend w [EvSharp transcode_pipeline buffer None])) \/
  (string_includes (mimeType info) "svg" = false /\
   exists e,
     sharp_toBuffer env transcode_pipeline buffer = inl e /\
     transcode env info buffer w =
       (Throw e, extend w [EvSharp transcode_pipeline buffer (Some e)])).
Proof.
  unfold transcode. destruct (string_includes (mimeType info) "svg"); cbn [negb].
  - left. split; reflexivity.
  - right. unfold bind, sharp_run, extend.
    destruct (sharp_toBuffer env transcode_pipeline buffer) as [e | out];
      [right | left]; split; eauto.
Qed.

(** After a successful transcoding step: the [put], then the response or,
    when the store fails, an unhandled rejection. *)
Lemma on_end_after_transcode (st : FileState) (w w1 : World) (p : bytes * string) :
  transcode env info (concat (chunks st)) w = (Ok p, w1) ->
  let req := upload_put (date_now env (trace w1)) info (fst p) (snd p) in
  detached (on_end env info st) w =
    (Ok tt,
     match blob_put env req (trace w1) with
     | inl e => extend w1 [EvBlobPut req (Some e); EvUnhandledRejection e]
     | inr blob =>
         extend w1 [EvBlobPut req None;
                    EvRespond 200 (object [("url", VStr (blob_url blob));
                                           ("pathname", VStr (blob_pathname blob));
                                           ("contentType", VStr (blob_contentType blob));
                                           ("size", VNum (Z.of_nat (length (fst p))))])]
     end).
Proof.
  intros T req. unfold detached, on_end, try_catch.
  rewrite (bind_run _ _ _ _ _ T). unfold bind, Date_now, put. fold req.
  destruct (blob_put env req (trace w1)) as [e | blob];
    unfold respond, emit, extend; cbn [db trace]; now rewrite <- app_assoc.
Qed.

Lemma on_end_transcode_fails (st : FileState) (w w1 : World) (e : error) :
  transcode env info (concat (chunks st)) w = (Throw e, w1) ->
  detached (on_end env info st) w = (Ok tt, extend w1 [EvUnhandledRejection e]).
Proof.
  intros T. unfold detached, on_end, try_catch.
  now rewrite (bind_throw _ _ _ _ _ T).
Qed.

End Upload.

Lemma array_includes_spec (l : list string) (x : string) :
  array_includes l x = true <-> x ∈ l.
Proof.
  unfold array_includes. rewrite existsb_exists, list_elem_of_In. split.
  - intros (y & Hin & E). apply String.eqb_eq in E. now subst.
  - intros Hin. exists x. split; [exact Hin | apply String.eqb_refl].
Qed.

Lemma array_includes_false (l : list string) (x : string) :
  array_includes l x = false <-> x ∉ l.
Proof.
  rewrite <- array_includes_spec. destruct (array_includes l x); split; congruence.
Qed.

(** The only allowed type that [includes('svg')] is [image/svg+xml]. *)
Lemma allowed_svg (m : string) :
  m ∈ ALLOWED_TYPES -> string_includes m "svg" = true -> m = "image/svg+xml".
Proof.
  unfold ALLOWED_TYPES. rewrite !elem_of_cons, elem_of_nil.
  intros [-> | [-> | [-> | [-> | []]]]]; cbn; congruence.
Qed.

(** C2: an upload whose bytes exceed the 10 MiB limit is answered with
    one response, a 400, and neither the transcoder nor the store's [put]
    is called.  For an allowed type the body is read chunk by chunk and
    the check is made as each chunk arrives: while the chunks before the
    one that passes the limit come in nothing is written and the stream
    stays open; on the arrival of that chunk, with the rest of the body
    still to come, the stream is destroyed and the 400 written; nothing
    that arrives later is read, and the request ends as it stood then. *)
Theorem upload_over_limit_rejected (env : Env) (info : FileInfo) (body : list bytes)
    (w : World) :
  MAX_FILE_SIZE < total_size body ->
  let t := events_of (post_upload env info body) w in
  let start := {| chunks := []; fileSize := 0; destroyed := false |} in
  MAX_FILE_SIZE = 10485760 /\
  (exists b, responses t = [(400, b)]) /\
  count is_sharp t = 0%nat /\
  count is_blob_put t = 0%nat /\
  (mimeType info ∈ ALLOWED_TYPES ->
   t = too_large /\
   (forall rest, events_of (post_upload env info (body ++ rest)) w = too_large) /\
   (forall sent : list bytes,
      post_upload env info sent w =
        (st <- arrive start sent ;;
         if destroyed st then ret tt else detached (on_end env info st)) w) /\
   exists pre chunk rest,
     body = pre ++ chunk :: rest /\
     total_size pre <= MAX_FILE_SIZE < total_size (pre ++ [chunk]) /\
     (forall arrived, arrived `prefix_of` pre ->
        arrive start arrived w =
          (Ok {| chunks := arrived; fileSize := total_size arrived;
                 destroyed := false |}, w)) /\
     (forall later,
        arrive start (pre ++ chunk :: later) w =
          (Ok {| chunks := pre; fileSize := total_size (pre ++ [chunk]);
                 destroyed := true |}, extend w too_large)) /\
     post_upload env info body w = (Ok tt, extend w too_large)).
Proof.
  intros L t start. subst start. split; [reflexivity |].
  destruct (array_includes ALLOWED_TYPES (mimeType info)) eqn:A.
  - assert (Et : forall rest, events_of (post_upload env info (body ++ rest)) w = too_large).
    { intros rest. apply events_of_app. unfold run.
      rewrite post_upload_over_limit; [reflexivity | exact A |].
      rewrite total_size_app. pose proof (total_size_nonneg rest). lia. }
    assert (E : t = too_large).
    { specialize (Et []). now rewrite app_nil_r in Et. }
    rewrite E. split; [eexists; reflexivity |]. split; [reflexivity |].
    split; [reflexivity |]. intros _. split; [reflexivity |]. split; [exact Et |].
    split.
    { intros sent. unfold post_upload.
      rewrite (bind_run _ _ _ _ _ (on_file_allowed info w A)).
      now apply flow_arrive. }
    destruct (first_chunk_over MAX_FILE_SIZE 0 body) as (pre & chunk & rest & Eb & H1 & H2);
      [unfold MAX_FILE_SIZE; lia | lia |].
    exists pre, chunk, rest. split; [exact Eb |]. split; [lia |]. split.
    { intros arrived [k Ek].
      rewrite arrive_within_limit; cbn [chunks fileSize destroyed app].
      - now rewrite Z.add_0_l.
      - reflexivity.
      - subst pre. rewrite total_size_app in H1. pose proof (total_size_nonneg k). lia. }
    split.
    { intros later.
      rewrite arrive_over_limit; cbn [chunks fileSize destroyed app].
      - now rewrite Z.add_0_l.
      - reflexivity.
      - lia.
      - lia. }
    now apply post_upload_over_limit.
  - assert (E : t = [EvRespond 400 (object [("error",
                        VStr "Invalid file type. Only images allowed.")])]).
    { apply events_of_app. unfold run. now rewrite post_upload_refused. }
    rewrite E. split; [eexists; reflexivity |]. split; [reflexivity |].
    split; [reflexivity |].
    intros Hin. apply array_includes_spec in Hin. congruence.
Qed.

(** C3: an upload whose declared MIME type is not in the allow-list is
    answered with the 400 and nothing else happens: the decision reads the
    declared type only (any body gives the same run), and neither the
    transcoder nor the store's [put] is called. *)
Theorem upload_disallowed_type_rejected (env : Env) (info : FileInfo) (body : list bytes)
    (w : World) :
  mimeType info ∉ ALLOWED_TYPES ->
  let t := events_of (post_upload env info body) w in
  ALLOWED_TYPES = ["image/jpeg"; "image/png"; "image/webp"; "image/svg+xml"] /\
  t = [EvRespond 400 (object [("error", VStr "Invalid file type. Only images allowed.")])] /\
  count is_sharp t = 0%nat /\
  count is_blob_put t = 0%nat /\
  (forall body', events_of (post_upload env info body') w = t).
Proof.
  intros A t. apply array_includes_false in A.
  assert (E : forall body', events_of (post_upload env info body') w =
            [EvRespond 400 (object [("error",
               VStr "Invalid file type. Only images allowed.")])]).
  { intros body'. apply events_of_app. unfold run. now rewrite post_upload_refused. }
  unfold t. rewrite (E body). repeat split; auto.
Qed.

(** ** The geometry of the resize step *)

Lemma round_div_bounds (a b : Z) :
  0 < b -> 2 * b * round_div a b <= 2 * a + b < 2 * b * round_div a b + 2 * b.
Proof.
  intros Hb. unfold round_div.
  pose proof (Z.mul_div_le (2 * a + b) (2 * b)).
  pose proof (Z.mul_succ_div_gt (2 * a + b) (2 * b)).
  lia.
Qed.

(** Scaling one edge by [W / w], rounded and at least one pixel: the
    result is within the other bound and within a pixel of the exact
    ratio. *)
Lemma scaled_edge (W H w h : Z) :
  1 <= W -> 1 <= H -> 1 <= w -> 1 <= h -> h * W <= w * H ->
  let h' := Z.max 1 (round_div (h * W) w) in
  1 <= h' <= H /\ Z.abs (W * h - h' * w) <= w.
Proof.
  intros HW HH Hw Hh Hr h'.
  pose proof (round_div_bounds (h * W) w ltac:(lia)) as [B1 B2].
  assert (Hq : round_div (h * W) w <= H) by nia.
  assert (Hq0 : 0 <= round_div (h * W) w) by nia.
  subst h'. destruct (Z.max_spec 1 (round_div (h * W) w)) as [[L ->] | [L ->]].
  - split; [lia |]. apply Z.abs_le. nia.
  - split; [lia |]. apply Z.abs_le.
    assert (round_div (h * W) w = 0 \/ round_div (h * W) w = 1) as [E | E] by lia;
      rewrite E in *; nia.
Qed.

Lemma fit_inside_spec (W H : Z) (we : bool) (w h : Z) :
  1 <= W -> 1 <= H -> 1 <= w -> 1 <= h ->
  let out := fit_inside W H we w h in
  (we = true -> w <= W -> h <= H -> out = (w, h)) /\
  (w > W \/ h > H ->
   1 <= fst out <= W /\ 1 <= snd out <= H /\
   (fst out = W \/ snd out = H) /\
   Z.abs (fst out * h - snd out * w) <= Z.max w h).
Proof.
  intros HW HH Hw Hh out. subst out. unfold fit_inside. split.
  - intros -> L1 L2. apply Z.leb_le in L1, L2. now rewrite L1, L2.
  - intros Hbig.
    assert (we && (w <=? W) && (h <=? H) = false) as ->.
    { apply andb_false_iff. destruct Hbig.
      - left. apply andb_false_iff. right. apply Z.leb_gt. lia.
      - right. apply Z.leb_gt. lia. }
    destruct (h * W <=? w * H) eqn:R.
    + apply Z.leb_le in R. cbn [fst snd].
      destruct (scaled_edge W H w h HW HH Hw Hh R) as (B & A).
      split; [lia |]. split; [exact B |]. split; [now left |]. lia.
    + apply Z.leb_gt in R. cbn [fst snd].
      destruct (scaled_edge H W h w HH HW Hh Hw ltac:(lia)) as (B & A).
      split; [exact B |]. split; [lia |]. split; [now right |].
      rewrite <- Z.abs_opp.
      replace (- (Z.max 1 (round_div (w * H) h) * h - H * w))
        with (H * w - Z.max 1 (round_div (w * H) h) * h) by lia.
      lia.
Qed.

Lemma transcode_pipeline_output (iw ih : Z) (format : string) :
  pipeline_output transcode_pipeline ((iw, ih), format) =
    Some (fit_inside 800 800 true iw ih, "image/jpeg").
Proof. reflexivity. Qed.

(** ** The ['end'] listener: transcoding, storing, responding *)

(** C5: an SVG upload is not transcoded: sharp is never called, the bytes
    handed to the store's [put] are the bytes received, under the declared
    content type [image/svg+xml]; the response carries the content type of
    the [put] result, which is the SVG type when the store reports the
    type it was given. *)
Theorem svg_upload_passes_through (env : Env) (info : FileInfo) (body : list bytes)
    (w : World) :
  mimeType info ∈ ALLOWED_TYPES ->
  string_includes (mimeType info) "svg" = true ->
  let t := events_of (post_upload env info body) w in
  let req := upload_put (date_now env (trace w)) info (concat body) (mimeType info) in
  mimeType info = "image/svg+xml" /\
  count is_sharp t = 0%nat /\
  (total_size body <= MAX_FILE_SIZE ->
   put_body req = concat body /\
   put_contentType req = "image/svg+xml" /\
   (exists failure tail, t = EvBlobPut req failure :: tail /\ count is_blob_put tail = 0%nat) /\
   forall blob, blob_put env req (trace w) = inr blob ->
     t = [EvBlobPut req None;
          EvRespond 200 (object [("url", VStr (blob_url blob));
                                 ("pathname", VStr (blob_pathname blob));
                                 ("contentType", VStr (blob_contentType blob));
                                 ("size", VNum (Z.of_nat (length (concat body))))])] /\
     (blob_contentType blob = put_contentType req ->
      exists b, responses t = [(200, VObj b)] /\
                b !! "contentType" = Some (VStr "image/svg+xml"))).
Proof.
  intros A S t req.
  pose proof (allowed_svg _ A S) as Hm.
  apply array_includes_spec in A.
  split; [exact Hm |].
  destruct (Z.le_gt_cases (total_size body) MAX_FILE_SIZE) as [L | L].
  - (* within the limit: the put, then the response or a rejection *)
    assert (T : transcode env info (concat body) w = (Ok (concat body, mimeType info), w)).
    { destruct (transcode_cases env info (concat body) w)
        as [(_ & T) | [(S' & _) | (S' & _)]]; [exact T | congruence | congruence]. }
    pose proof (on_end_after_transcode env info
                  {| chunks := body; fileSize := total_size body; destroyed := false |}
                  w w _ T) as R.
    cbv zeta in R. cbn [fst snd chunks] in R. fold req in R.
    assert (Erun : post_upload env info body w = (Ok tt, snd (post_upload env info body w))).
    { rewrite post_upload_within_limit by assumption. now rewrite R. }
    assert (Et : t = match blob_put env req (trace w) with
                     | inl e => [EvBlobPut req (Some e); EvUnhandledRejection e]
                     | inr blob =>
                         [EvBlobPut req None;
                          EvRespond 200 (object [("url", VStr (blob_url blob));
                                  ("pathname", VStr (blob_pathname blob));
                                  ("contentType", VStr (blob_contentType blob));
                                  ("size", VNum (Z.of_nat (length (concat body))))])]
                     end).
    { apply events_of_app. unfold run.
      rewrite post_upload_within_limit by assumption. rewrite R.
      now destruct (blob_put env req (trace w)). }
    split; [rewrite Et; now destruct (blob_put env req (trace w)) |].
    intros _. split; [reflexivity |]. split; [cbn; exact Hm |]. split.
    + rewrite Et. destruct (blob_put env req (trace w)); eexists _, _; split; reflexivity.
    + intros blob Hb. rewrite Hb in Et. split; [exact Et |].
      intros Hct. rewrite Et. eexists. split; [reflexivity |].
      cbn [put_contentType req upload_put] in Hct. rewrite Hct, Hm. reflexivity.
  - (* over the limit: rejected before the ['end'] listener *)
    assert (Et : t = too_large).
    { apply events_of_app. unfold run. now rewrite post_upload_over_limit. }
    split; [now rewrite Et |]. lia.
Qed.

(** C7: when the type is allowed, the body within the limit, and the
    transcoding step and the store's [put] succeed, the handler writes one
    response, with a success status of the class of 201 (it is 200) and the
    body [{url, pathname, contentType, size}]: [url], [pathname] and
    [contentType] are those of the [put] result and [size] is the length of
    the processed buffer, the one handed to [put]. *)
Theorem upload_success_response (env : Env) (info : FileInfo) (body : list bytes)
    (w w1 : World) (processedBuffer : bytes) (contentType : string) (blob : PutBlobResult) :
  mimeType info ∈ ALLOWED_TYPES ->
  total_size body <= MAX_FILE_SIZE ->
  transcode env info (concat body) w = (Ok (processedBuffer, contentType), w1) ->
  let req := upload_put (date_now env (trace w1)) info processedBuffer contentType in
  blob_put env req (trace w1) = inr blob ->
  let t := events_of (post_upload env info body) w in
  let response :=
    object [("url", VStr (blob_url blob));
            ("pathname", VStr (blob_pathname blob));
            ("contentType", VStr (blob_contentType blob));
            ("size", VNum (Z.of_nat (length processedBuffer)))] in
  responses t = [(200, response)] /\
  status_class 200 = status_class 201 /\
  (exists pre, t = pre ++ [EvBlobPut req None; EvRespond 200 response] /\
               count is_blob_put pre = 0%nat) /\
  put_body req = processedBuffer.
Proof.
  intros A L T req Hb t response.
  apply array_includes_spec in A.
  pose proof (on_end_after_transcode env info
                {| chunks := body; fileSize := total_size body; destroyed := false |}
                w w1 _ T) as R.
  cbv zeta in R. cbn [fst snd chunks] in R. fold req in R. rewrite Hb in R.
  fold response in R.
  assert (Hw1 : exists pre, trace w1 = trace w ++ pre /\ responses pre = [] /\
                            count is_blob_put pre = 0%nat).
  { destruct (transcode_cases env info (concat body) w)
      as [(_ & T') | [(_ & out & _ & T') | (_ & e & _ & T')]];
      rewrite T' in T; inversion T; subst.
    - exists []. now rewrite app_nil_r.
    - exists [EvSharp transcode_pipeline (concat body) None]. repeat split. }
  destruct Hw1 as (pre & Hpre & Hresp & Hput).
  assert (Et : t = pre ++ [EvBlobPut req None; EvRespond 200 response]).
  { apply events_of_app. unfold run.
    rewrite post_upload_within_limit by assumption. rewrite R.
    cbn [snd extend trace]. now rewrite Hpre, <- app_assoc. }
  split; [rewrite Et, responses_app, Hresp; reflexivity |].
  split; [reflexivity |]. split; [eauto |]. reflexivity.
Qed.

(** C6: a raster upload (JPEG, PNG or WebP) within the size limit is
    handed, whole and once, to the transcoder with the pipeline "resize to
    fit inside 800 x 800 without enlargement, then encode as JPEG at quality
    85", and its output is stored as [image/jpeg].  On the geometry of that
    pipeline: an image that fits the box keeps its dimensions; a larger one
    is scaled to fit, its longer edge becoming 800 and the other edge
    staying within a pixel of the aspect ratio. *)
Theorem raster_upload_transcoded (env : Env) (info : FileInfo) (body : list bytes)
    (w : World) :
  mimeType info ∈ ["image/jpeg"; "image/png"; "image/webp"] ->
  total_size body <= MAX_FILE_SIZE ->
  let t := events_of (post_upload env info body) w in
  let t1 := trace w ++ [EvSharp transcode_pipeline (concat body) None] in
  transcode_pipeline = [Resize 800 800 "inside" true; Jpeg 85] /\
  (exists failure tail,
     t = EvSharp transcode_pipeline (concat body) failure :: tail /\
     count is_sharp tail = 0%nat) /\
  (forall out, sharp_toBuffer env transcode_pipeline (concat body) = inr out ->
     exists failure tail,
       t = EvSharp transcode_pipeline (concat body) None ::
           EvBlobPut (upload_put (date_now env t1) info out "image/jpeg") failure :: tail) /\
  pipeline_quality transcode_pipeline = Some 85 /\
  (forall (iw ih : Z) (format : string), 1 <= iw -> 1 <= ih ->
     exists ow oh,
       pipeline_output transcode_pipeline ((iw, ih), format) = Some ((ow, oh), "image/jpeg") /\
       (iw <= 800 -> ih <= 800 -> ow = iw /\ oh = ih) /\
       (iw > 800 \/ ih > 800 ->
        1 <= ow <= 800 /\ 1 <= oh <= 800 /\ Z.max ow oh = 800 /\
        Z.abs (ow * ih - oh * iw) <= Z.max iw ih)).
Proof.
  intros Hm L t t1.
  assert (A : array_includes ALLOWED_TYPES (mimeType info) = true /\
              string_includes (mimeType info) "svg" = false).
  { revert Hm. rewrite !elem_of_cons, elem_of_nil.
    intros [-> | [-> | [-> | []]]]; split; reflexivity. }
  destruct A as (A & S).
  split; [reflexivity |].
  assert (Et : exists tail,
            t = EvSharp transcode_pipeline (concat body)
                  match sharp_toBuffer env transcode_pipeline (concat body) with
                  | inl e => Some e
                  | inr _ => None
                  end :: tail /\
            count is_sharp tail = 0%nat /\
            forall out, sharp_toBuffer env transcode_pipeline (concat body) = inr out ->
              exists failure tail',
                tail = EvBlobPut (upload_put (date_now env t1) info out "image/jpeg") failure
                         :: tail').
  { destruct (transcode_cases env info (concat body) w)
      as [(S' & _) | [(_ & out & Hs & T) | (_ & e & Hs & T)]]; [congruence | |].
    - pose proof (on_end_after_transcode env info
                    {| chunks := body; fileSize := total_size body; destroyed := false |}
                    w _ _ T) as R.
      cbv zeta in R. cbn [fst snd chunks extend trace] in R. fold t1 in R.
      rewrite Hs.
      destruct (blob_put env (upload_put (date_now env t1) info out "image/jpeg") t1)
        as [e | blob] eqn:Hb.
      + exists [EvBlobPut (upload_put (date_now env t1) info out "image/jpeg") (Some e);
                EvUnhandledRejection e].
        split; [| split; [reflexivity | intros ? [= <-]; eauto]].
        apply events_of_app. unfold run.
        rewrite post_upload_within_limit by assumption. rewrite R.
        cbn [snd extend trace db]. now rewrite <- app_assoc.
      + exists [EvBlobPut (upload_put (date_now env t1) info out "image/jpeg") None;
                EvRespond 200 (object [("url", VStr (blob_url blob));
                                       ("pathname", VStr (blob_pathname blob));
                                       ("contentType", VStr (blob_contentType blob));
                                       ("size", VNum (Z.of_nat (length out)))])].
        split; [| split; [reflexivity | intros ? [= <-]; eauto]].
        apply events_of_app. unfold run.
        rewrite post_upload_within_limit by assumption. rewrite R.
        cbn [snd extend trace db]. now rewrite <- app_assoc.
    - rewrite Hs. exists [EvUnhandledRejection e].
      split; [| split; [reflexivity | intros ? [=]]].
      apply events_of_app. unfold run.
      rewrite post_upload_within_limit by assumption.
      rewrite (on_end_transcode_fails env info
                 {| chunks := body; fileSize := total_size body; destroyed := false |}
                 w _ e T).
      cbn [snd extend trace db]. now rewrite <- app_assoc. }
  destruct Et as (tail & Et & Hc & Hput).
  split; [eauto |]. split.
  { intros out Hs. destruct (Hput out Hs) as (failure & tail' & ->).
    rewrite Hs in Et. eauto. }
  split; [reflexivity |].
  intros iw ih format Hw Hh.
  pose proof (fit_inside_spec 800 800 true iw ih ltac:(lia) ltac:(lia) Hw Hh) as Hfit.
  cbv zeta in Hfit. destruct Hfit as (Hsmall & Hbig).
  exists (fst (fit_inside 800 800 true iw ih)), (snd (fit_inside 800 800 true iw ih)).
  split; [rewrite transcode_pipeline_output; now destruct (fit_inside 800 800 true iw ih) |].
  split.
  - intros L1 L2. rewrite (Hsmall eq_refl L1 L2). split; reflexivity.
  - intros B. destruct (Hbig B) as (B1 & B2 & B3 & B4). repeat split; try lia.
Qed.

(** X1: a failure inside the ['end'] listener is not answered: the listener is
    an [async] function that runs after the [try] block of the ['file']
    handler has been left, so when the transcoder or the store's [put]
    throws, no response is written (neither the 500 of that [catch] nor any
    other) and the error ends as an unhandled rejection. *)
Theorem upload_failure_unanswered (env : Env) (info : FileInfo) (body : list bytes)
    (w w1 : World) (e : error) :
  mimeType info ∈ ALLOWED_TYPES ->
  total_size body <= MAX_FILE_SIZE ->
  transcode env info (concat body) w = (Throw e, w1) \/
  (exists p, transcode env info (concat body) w = (Ok p, w1) /\
             blob_put env (upload_put (date_now env (trace w1)) info (fst p) (snd p))
               (trace w1) = inl e) ->
  let t := events_of (post_upload env info body) w in
  responses t = [] /\ last t = Some (EvUnhandledRejection e).
Proof.
  intros A L Hfail t. apply array_includes_spec in A.
  assert (Hpre : forall r, transcode env info (concat body) w = (r, w1) ->
            exists pre, trace w1 = trace w ++ pre /\ responses pre = []).
  { intros r T.
    destruct (transcode_cases env info (concat body) w)
      as [(_ & T') | [(_ & out & _ & T') | (_ & e' & _ & T')]];
      rewrite T' in T; inversion T; subst.
    - exists []. now rewrite app_nil_r.
    - eexists [_]. split; reflexivity.
    - eexists [_]. split; reflexivity. }
  destruct Hfail as [T | (p & T & Hb)]; destruct (Hpre _ T) as (pre & Hw1 & Hresp).
  - assert (Et : t = pre ++ [EvUnhandledRejection e]).
    { apply events_of_app. unfold run.
      rewrite post_upload_within_limit by assumption.
      rewrite (on_end_transcode_fails env info
                 {| chunks := body; fileSize := total_size body; destroyed := false |}
                 w w1 e T).
      cbn [snd extend trace]. now rewrite Hw1, <- app_assoc. }
    rewrite Et, responses_app, Hresp. split; [reflexivity | apply last_snoc].
  - pose proof (on_end_after_transcode env info
                  {| chunks := body; fileSize := total_size body; destroyed := false |}
                  w w1 p T) as R.
    cbv zeta in R. cbn [chunks] in R. rewrite Hb in R.
    assert (Et : t = (pre ++ [EvBlobPut (upload_put (date_now env (trace w1)) info
                                           (fst p) (snd p)) (Some e)])
                       ++ [EvUnhandledRejection e]).
    { apply events_of_app. unfold run.
      rewrite post_upload_within_limit by assumption. rewrite R.
      cbn [snd extend trace]. now rewrite Hw1, <- !app_assoc. }
    rewrite Et, !responses_app, Hresp. split; [reflexivity | apply last_snoc].
Qed.

(** ** [DELETE /image/:url] *)

(** C9: the router deletes the blob named by the path parameter and
    answers [{deleted: url}]; a request to [/image] that carries the blob
    URL in its body matches no route: no handler runs, no blob is deleted
    and no [{deleted: url}] is written. *)
Theorem delete_image_by_param_only (env : Env) (w : World) (u : string) :
  (u <> "" ->
   dispatch upload_routes env (delete_image_request u) = Some (delete_image env u) /\
   forall url, decodeURIComponent env u = inr url ->
     blob_del env (VStr url) (trace w) = None ->
     events_of (delete_image env u) w =
       [EvBlobDel (VStr url) None; EvRespond 200 (object [("deleted", VStr url)])]) /\
  dispatch upload_routes env (remove_image_request u) = None /\
  dispatch api_routes env (remove_image_request u) = None.
Proof.
  split; [| split; reflexivity].
  intros Hu. split.
  - cbn. destruct (String.eqb_spec u ""); [contradiction | reflexivity].
  - intros url Hd Hb. apply events_of_app.
    unfold run, delete_image, try_catch, bind, decode_component, del. rewrite Hd, Hb.
    unfold respond, emit. cbn [db trace snd]. now rewrite <- app_assoc.
Qed.

(** ** Instances *)

Lemma delete_data_existing_record_witness :
  count is_blob_del (events_of (delete_data blob_down_env "p1") sample_world) = 1%nat /\
  responses (events_of (delete_data blob_down_env "p1") sample_world) =
    [(200, VObj sample_photo)].
Proof.
  pose proof (delete_data_existing_record blob_down_env sample_world "p1"
                sample_photo eq_refl (conj eq_refl (conj eq_refl I))) as H.
  cbv zeta in H. exact (conj (proj1 (proj2 (proj2 H))) (proj2 (proj2 (proj2 (proj2 (proj2 H)))))).
Defined.

Lemma delete_data_missing_record_witness :
  count is_blob_del (events_of (delete_data quiet_env "p2") sample_world) = 0%nat.
Proof.
  exact (proj1 (proj2 (delete_data_missing_record quiet_env sample_world "p2" eq_refl))).
Defined.

Lemma pdf_not_allowed : mimeType pdf_info ∉ ALLOWED_TYPES.
Proof. apply array_includes_false. reflexivity. Qed.

Lemma upload_disallowed_type_rejected_witness :
  events_of (post_upload quiet_env pdf_info small_body) sample_world =
    [EvRespond 400 (object [("error", VStr "Invalid file type. Only images allowed.")])].
Proof.
  exact (proj1 (proj2 (upload_disallowed_type_rejected quiet_env pdf_info small_body
                         sample_world pdf_not_allowed))).
Defined.

Lemma svg_allowed : mimeType svg_info ∈ ALLOWED_TYPES.
Proof. apply array_includes_spec. reflexivity. Qed.

Lemma png_allowed : mimeType png_info ∈ ALLOWED_TYPES.
Proof. apply array_includes_spec. reflexivity. Qed.

Lemma over_limit_body_size : MAX_FILE_SIZE < total_size over_limit_body.
Proof.
  unfold over_limit_body. rewrite total_size_app, total_size_cons.
  pose proof (total_size_nonneg small_body). unfold big_chunk.
  rewrite repeat_length, Z2Nat.id; unfold MAX_FILE_SIZE; lia.
Qed.

Lemma upload_over_limit_rejected_witness :
  MAX_FILE_SIZE < total_size over_limit_body /\
  count is_sharp (events_of (post_upload quiet_env png_info over_limit_body) sample_world)
    = 0%nat /\
  events_of (post_upload quiet_env png_info over_limit_body) sample_world = too_large.
Proof.
  pose proof (upload_over_limit_rejected quiet_env png_info over_limit_body sample_world
                over_limit_body_size) as H.
  cbv zeta in H. destruct H as (_ & _ & Hs & _ & H).
  split; [exact over_limit_body_size |]. split; [exact Hs |].
  exact (proj1 (H png_allowed)).
Defined.

Lemma png_raster : mimeType png_info ∈ ["image/jpeg"; "image/png"; "image/webp"].
Proof. apply array_includes_spec. reflexivity. Qed.

Lemma small_body_within_limit : total_size small_body <= MAX_FILE_SIZE.
Proof. vm_compute. discriminate. Qed.

Lemma svg_upload_passes_through_witness :
  mimeType svg_info = "image/svg+xml" /\
  count is_sharp (events_of (post_upload quiet_env svg_info small_body) sample_world) = 0%nat.
Proof.
  pose proof (svg_upload_passes_through quiet_env svg_info small_body sample_world
                svg_allowed eq_refl) as H.
  cbv zeta in H. exact (conj (proj1 H) (proj1 (proj2 H))).
Defined.

Lemma raster_upload_transcoded_witness :
  exists failure tail,
    events_of (post_upload quiet_env png_info small_body) sample_world =
      EvSharp transcode_pipeline (concat small_body) failure :: tail /\
    count is_sharp tail = 0%nat.
Proof.
  pose proof (raster_upload_transcoded quiet_env png_info small_body sample_world
                png_raster small_body_within_limit) as H.
  cbv zeta in H. exact (proj1 (proj2 H)).
Defined.

Lemma upload_success_response_witness :
  responses (events_of (post_upload quiet_env png_info small_body) sample_world) =
    [(200, object [("url", VStr "https://blobs.example/cat-images/1700000000000-cat.png");
                   ("pathname", VStr "cat-images/1700000000000-cat.png");
                   ("contentType", VStr "image/jpeg");
                   ("size", VNum 3)])].
Proof.
  exact (proj1 (upload_success_response quiet_env png_info small_body sample_world
                  (extend sample_world
                     [EvSharp transcode_pipeline (concat small_body) None])
                  [Byte.xff; Byte.xd8; Byte.xff] "image/jpeg"
                  {| blob_url := "https://blobs.example/cat-images/1700000000000-cat.png";
                     blob_pathname := "cat-images/1700000000000-cat.png";
                     blob_contentType := "image/jpeg" |}
                  png_allowed small_body_within_limit eq_refl eq_refl)).
Defined.

Lemma upload_failure_unanswered_witness :
  responses (events_of (post_upload put_down_env svg_info small_body) sample_world) = [].
Proof.
  exact (proj1 (upload_failure_unanswered put_down_env svg_info small_body
                  sample_world sample_world
                  (mkError "BlobError" None "Vercel Blob: store unavailable")
                  svg_allowed small_body_within_limit
                  (or_intror (ex_intro _ (concat small_body, "image/svg+xml")
                                (conj eq_refl eq_refl))))).
Defined.

(** * Further properties of the handlers *)

(** ** [DELETE /data/:id] on every path *)

(** The run of the handler, whatever the store holds and does. *)
Lemma delete_data_run (env : Env) (w : World) (id : string) :
  let t1 := trace w ++ [EvStore (FindUnique id) None] in
  let failed (pre : list event) (e : error) :=
    extend w (pre ++ [EvError "DELETE /data/:id error:" e;
                      EvRespond 500 (object [("error", VStr "Failed to delete record");
                                             ("details", message_or_error e)])]) in
  run (delete_data env id) w =
    match store_fault env (FindUnique id) (trace w) with
    | Some e => failed [EvStore (FindUnique id) (Some e)] e
    | None =>
        match store_fault env (Delete id) t1 with
        | Some e => failed [EvStore (FindUnique id) None; EvStore (Delete id) (Some e)] e
        | None =>
            match db w !! id with
            | None =>
                failed [EvStore (FindUnique id) None;
                        EvStore (Delete id) (Some (P2025 "Record to delete does not exist."))]
                       (P2025 "Record to delete does not exist.")
            | Some photo => run (delete_data env id) w
            end
        end
    end.
Proof.
  intros t1 failed. subst failed. cbv beta.
  destruct (store_fault env (FindUnique id) (trace w)) as [e|] eqn:Hf.
  - unfold run, delete_data, try_catch.
    rewrite (bind_throw _ _ _ _ _ (findUnique_fault env w id e Hf)).
    unfold bind, console_error, respond, emit, extend. cbn [db trace snd].
    now rewrite <- !app_assoc.
  - destruct (store_fault env (Delete id) t1) as [e|] eqn:Hd.
    + unfold run, delete_data, try_catch.
      rewrite (bind_run _ _ _ _ _ (findUnique_ok env w id Hf)).
      unfold bind at 1. unfold prisma_delete, store_op. cbn [db trace].
      fold t1. rewrite Hd.
      unfold bind, console_error, respond, emit, extend. cbn [db trace snd].
      unfold t1. now rewrite <- !app_assoc.
    + destruct (db w !! id) as [photo|] eqn:Hrec; [reflexivity |].
      unfold run, delete_data, try_catch.
      rewrite (bind_run _ _ _ _ _ (findUnique_ok env w id Hf)).
      unfold bind at 1. unfold prisma_delete, store_op. cbn [db trace].
      fold t1. rewrite Hd, Hrec.
      unfold bind, console_error, respond, emit, extend. cbn [db trace snd].
      unfold t1. now rewrite <- !app_assoc.
Qed.

(** X2: on every path the handler writes exactly one response, a 200 or
    a 500, and never touches another record.  A 500 leaves both stores as
    they were: the collection is unchanged and no blob-delete call is made.
    A blob is only ever deleted for a record that was stored and has been
    deleted, and at most once. *)
Theorem delete_data_guarded (env : Env) (w : World) (id : string) :
  let t := events_of (delete_data env id) w in
  let w' := run (delete_data env id) w in
  (forall k, k <> id -> db w' !! k = db w !! k) /\
  ((exists details,
      responses t = [(500, object [("error", VStr "Failed to delete record");
                                   ("details", details)])] /\
      db w' = db w /\ count is_blob_del t = 0%nat) \/
   (exists photo,
      responses t = [(200, VObj photo)] /\
      db w !! id = Some photo /\ db w' = delete id (db w) /\
      (count is_blob_del t <= 1)%nat)).
Proof.
  intros t w'.
  pose proof (delete_data_run env w id) as R. cbv zeta beta in R.
  assert (Hfail : forall pre e,
            count is_blob_del pre = 0%nat -> responses pre = [] ->
            run (delete_data env id) w =
              extend w (pre ++ [EvError "DELETE /data/:id error:" e;
                                EvRespond 500 (object [("error", VStr "Failed to delete record");
                                                       ("details", message_or_error e)])]) ->
            (forall k, k <> id -> db w' !! k = db w !! k) /\
            ((exists details,
               responses t = [(500, object [("error", VStr "Failed to delete record");
                                            ("details", details)])] /\
               db w' = db w /\ count is_blob_del t = 0%nat) \/
             (exists photo,
               responses t = [(200, VObj photo)] /\
               db w !! id = Some photo /\ db w' = delete id (db w) /\
               (count is_blob_del t <= 1)%nat))).
  { intros pre e Hc Hr E.
    assert (Et : t = pre ++ [EvError "DELETE /data/:id error:" e;
                             EvRespond 500 (object [("error", VStr "Failed to delete record");
                                                    ("details", message_or_error e)])]).
    { apply events_of_app. now rewrite E. }
    subst w'. rewrite E. split; [reflexivity |]. left. exists (message_or_error e).
    rewrite Et, responses_app, count_app, Hr, Hc. repeat split. }
  destruct (store_fault env (FindUnique id) (trace w)) as [e|] eqn:Hf;
    [refine (Hfail _ _ _ _ R); reflexivity |].
  destruct (store_fault env (Delete id) (trace w ++ [EvStore (FindUnique id) None]))
    as [e|] eqn:Hd;
    [refine (Hfail _ _ _ _ R); reflexivity |].
  destruct (db w !! id) as [photo|] eqn:Hrec;
    [| refine (Hfail _ _ _ _ R); reflexivity].
  clear R Hfail.
  pose proof (delete_data_found env w id photo Hrec (conj Hf (conj Hd I))) as R.
  cbv zeta in R.
  assert (Et : t = [EvStore (FindUnique id) None; EvStore (Delete id) None] ++
            (if truthy (get "imageUrl" photo)
             then [EvBlobDel (get "imageUrl" photo)
                     (blob_del env (get "imageUrl" photo)
                        (trace w ++ [EvStore (FindUnique id) None; EvStore (Delete id) None]));
                   match blob_del env (get "imageUrl" photo)
                           (trace w ++ [EvStore (FindUnique id) None; EvStore (Delete id) None])
                   with
                   | None => EvLog "Deleted image:" (get "imageUrl" photo)
                   | Some e => EvError "Failed to delete image:" e
                   end]
             else []) ++
            [EvRespond 200 (VObj photo)]).
  { apply events_of_app. now rewrite R. }
  subst w'. rewrite R. cbn [db]. split; [intros k Hk; now apply lookup_delete_ne |].
  right. exists photo. rewrite Et.
  destruct (truthy (get "imageUrl" photo));
    [destruct (blob_del env (get "imageUrl" photo) _) |]; cbn; repeat split; lia.
Qed.

(** X3: a second [DELETE] of a record that has just been deleted answers
    500 and makes no blob-delete call, whatever the collaborators do: the
    blob of a record is asked to be deleted by the first request only. *)
Theorem delete_data_twice (env : Env) (w : World) (id : string) (photo : obj) :
  db w !! id = Some photo ->
  store_answers env (trace w) [FindUnique id; Delete id] ->
  let w1 := run (delete_data env id) w in
  let t2 := events_of (delete_data env id) w1 in
  (exists details,
     responses t2 = [(500, object [("error", VStr "Failed to delete record");
                                   ("details", details)])]) /\
  count is_blob_del t2 = 0%nat /\
  db (run (delete_data env id) w1) = db w1.
Proof.
  intros Hrec Hst w1 t2.
  assert (Hgone : db w1 !! id = None).
  { subst w1. rewrite (delete_data_found env w id photo Hrec Hst). apply lookup_delete_eq. }
  destruct (delete_data_absent env w1 id Hgone) as (e & R & _).
  assert (Et : t2 = match store_fault env (FindUnique id) (trace w1) with
                    | Some _ => [EvStore (FindUnique id) (Some e)]
                    | None => [EvStore (FindUnique id) None; EvStore (Delete id) (Some e)]
                    end ++
                    [EvError "DELETE /data/:id error:" e;
                     EvRespond 500 (object [("error", VStr "Failed to delete record");
                                            ("details", message_or_error e)])]).
  { apply events_of_app. now rewrite R. }
  rewrite Et, R.
  destruct (store_fault env (FindUnique id) (trace w1)); repeat split; eauto.
Qed.

(** ** [POST /data] *)

(** X4: a request without a body is answered with 500 and the message
    of the [TypeError] that the destructuring throws; the store is not
    called and the collection is unchanged. *)
Theorem post_data_without_body (env : Env) (w : World) :
  run (post_data env None) w =
    extend w [EvError "POST /data error:"
                (mkError "TypeError" None
                   "Cannot destructure property 'id' of 'req.body' as it is undefined.");
              EvRespond 500
                (object [("error", VStr "Failed to create record");
                         ("details",
                          VStr "Cannot destructure property 'id' of 'req.body' as it is undefined.")])].
Proof.
  unfold run, post_data, try_catch, post_createData, bind, throw.
  unfold console_error, respond, emit, extend. cbn [db trace snd].
  now rewrite <- !app_assoc.
Qed.

(** X5: the life of a record.  A record created by [POST /data] and then
    deleted by [DELETE /data/:id] under the identifier the store assigned:
    the second response is the created record, the collection is again what
    it was before the creation, and the blob store is asked to delete
    exactly the [imageUrl] that the creating request carried, or nothing
    when it carried none. *)
Theorem create_then_delete (env : Env) (w : World) (b : obj) :
  let newid := fresh_id env (trace w) in
  let created := <["id" := VStr newid]> (delete "id" b) in
  let w1 := run (post_data env (Some b)) w in
  let t2 := events_of (delete_data env newid) w1 in
  db w !! newid = None ->
  store_fault env (Create (delete "id" b)) (trace w) = None ->
  store_answers env (trace w1) [FindUnique newid; Delete newid] ->
  db w1 !! newid = Some created /\
  responses t2 = [(200, VObj created)] /\
  db (run (delete_data env newid) w1) = db w /\
  (forall c f, EvBlobDel c f ∈ t2 -> c = get "imageUrl" b /\ truthy (get "imageUrl" b) = true) /\
  count is_blob_del t2 = (if truthy (get "imageUrl" b) then 1 else 0)%nat.
Proof.
  intros newid created w1 t2 Hfresh Hc Hst.
  pose proof (post_data_run env w b) as R1. cbv zeta in R1. rewrite Hc in R1.
  fold newid created in R1.
  assert (Hdb1 : db w1 = <[newid := created]> (db w)) by (subst w1; now rewrite R1).
  assert (Hrec : db w1 !! newid = Some created) by (rewrite Hdb1; apply lookup_insert_eq).
  assert (Hurl : get "imageUrl" created = get "imageUrl" b).
  { unfold get, created. rewrite lookup_insert_ne by discriminate.
    now rewrite lookup_delete_ne by discriminate. }
  pose proof (delete_data_found env w1 newid created Hrec Hst) as R2. cbv zeta in R2.
  rewrite Hurl in R2.
  assert (Et : t2 = [EvStore (FindUnique newid) None; EvStore (Delete newid) None] ++
            (if truthy (get "imageUrl" b)
             then [EvBlobDel (get "imageUrl" b)
                     (blob_del env (get "imageUrl" b)
                        (trace w1 ++ [EvStore (FindUnique newid) None;
                                      EvStore (Delete newid) None]));
                   match blob_del env (get "imageUrl" b)
                           (trace w1 ++ [EvStore (FindUnique newid) None;
                                         EvStore (Delete newid) None])
                   with
                   | None => EvLog "Deleted image:" (get "imageUrl" b)
                   | Some e => EvError "Failed to delete image:" e
                   end]
             else []) ++
            [EvRespond 200 (VObj created)]).
  { apply events_of_app. now rewrite R2. }
  split; [exact Hrec |].
  split; [rewrite Et; destruct (truthy (get "imageUrl" b));
          [destruct (blob_del env (get "imageUrl" b) _) |]; reflexivity |].
  split; [rewrite R2; cbn [db]; rewrite Hdb1; now apply delete_insert_id |].
  split.
  - intros c f. rewrite Et. destruct (truthy (get "imageUrl" b)) eqn:T.
    + destruct (blob_del env (get "imageUrl" b) _);
        cbn; rewrite !elem_of_cons, elem_of_nil;
        intros Hin; repeat (destruct Hin as [Hin | Hin]; [try discriminate |]);
        try contradiction; injection Hin as -> _; auto.
    + cbn. rewrite !elem_of_cons, elem_of_nil.
      intros Hin; repeat (destruct Hin as [Hin | Hin]; [discriminate |]); contradiction.
  - rewrite Et. destruct (truthy (get "imageUrl" b));
      [destruct (blob_del env (get "imageUrl" b) _) |]; reflexivity.
Qed.

(** ** [PUT /data/:id] and the collection *)

Section UpdateStore.

Variable env : Env.
Variable id : string.
Variable data : obj.

(** The retry loop changes the collection only together with a 200: it
    either leaves the collection as it is and writes no 200, or replaces
    the record of [id] by the merged one and answers 200 with it. *)
Lemma put_loop_store (n attempt : nat) (w : World) :
  exists (t : list event) (d : gmap string obj),
    for_loop n attempt (put_attempt env id data) w =
      (Ok tt, {| db := d; trace := trace w ++ t |}) /\
    ((d = db w /\ forall s b, (s, b) ∈ responses t -> s <> 200) \/
     (exists r, db w !! id = Some r /\ d = <[id := data ∪ r]> (db w) /\
                responses t = [(200, VObj (data ∪ r))])).
Proof.
  revert attempt w. induction n as [|n IH]; intros attempt w.
  - exists [], (db w). cbn [for_loop]. unfold ret. rewrite app_nil_r.
    split; [now destruct w |]. left. split; [reflexivity |].
    intros s b H. inversion H.
  - cbn [for_loop]. unfold put_attempt at 1.
    destruct (prisma_update_cases env id data w) as [(e & Hu) | (r & Hr & Hu)].
    + unfold bind at 1. rewrite (try_catch_throw _ _ _ _ _ (bind_throw _ _ _ _ _ Hu)).
      destruct (put_catch_cases attempt e (extend w [EvStore (Update id data) (Some e)]))
        as [(C & L & ->) | [(C & L & ->) | (C & ->)]]; rewrite extend_extend; cbn [app].
      * destruct (IH (S attempt) (extend w [EvStore (Update id data) (Some e); EvSleep 100]))
          as (t & d & Hl & Hd).
        exists ([EvStore (Update id data) (Some e); EvSleep 100] ++ t), d.
        rewrite Hl. cbn [extend db trace]. split; [now rewrite <- !app_assoc |].
        cbn [extend db] in Hd. rewrite responses_app. exact Hd.
      * eexists _, (db w). unfold ret, extend. split; [reflexivity |].
        left. split; [reflexivity |]. intros s b. cbn.
        rewrite elem_of_cons, elem_of_nil. intros [[= -> _] | []]. discriminate.
      * eexists _, (db w). unfold ret, extend. split; [reflexivity |].
        left. split; [reflexivity |]. intros s b. cbn.
        rewrite elem_of_cons, elem_of_nil. intros [[= -> _] | []]. discriminate.
    + unfold bind at 1. erewrite try_catch_ok.
      2:{ rewrite (bind_run _ _ _ _ _ Hu).
          unfold bind, console_log, respond, emit, ret. cbn [db trace]. reflexivity. }
      eexists _, _. unfold ret. split; [now rewrite <- !app_assoc |].
      right. exists r. repeat split. exact Hr.
Qed.

End UpdateStore.

(** X6: an update changes the collection only when it is answered with
    200: then the record of the URL parameter is replaced by the stored
    record overridden with the stripped body, and that record is the
    response.  With any other response (409, 500) the collection is as it
    was, however many attempts were made. *)
Theorem put_data_commits_on_success (env : Env) (w : World) (id : string) (body : option obj) :
  let data := put_requestBody body in
  let t := events_of (put_data env id body) w in
  let w' := run (put_data env id body) w in
  (db w' = db w /\ forall s b, (s, b) ∈ responses t -> s <> 200) \/
  (exists r, db w !! id = Some r /\
             db w' = <[id := data ∪ r]> (db w) /\
             responses t = [(200, VObj (data ∪ r))]).
Proof.
  intros data t w'.
  destruct (put_loop_store env id data 3 0 w) as (t0 & d & Hl & Hd).
  assert (Hrun : put_data env id body w = (Ok tt, {| db := d; trace := trace w ++ t0 |}))
    by exact Hl.
  assert (Et : t = t0) by (apply events_of_app; unfold run; now rewrite Hrun).
  subst w'. unfold run. rewrite Hrun, Et. cbn [snd db]. exact Hd.
Qed.

(** X7: an update of an identifier that matches no record is tried once
    and answered with 500 [Failed to update record]: the store's not-found
    error is no write conflict, so there is no retry and no delay, and
    there is no 404. *)
Theorem put_data_missing_record (env : Env) (w : World) (id : string) (body : option obj) :
  let data := put_requestBody body in
  db w !! id = None ->
  store_fault env (Update id data) (trace w) = None ->
  run (put_data env id body) w =
    extend w [EvStore (Update id data) (Some (P2025 "Record to update not found."));
              EvError "PUT /data/:id error:" (P2025 "Record to update not found.");
              EvRespond 500 (object [("error", VStr "Failed to update record")])].
Proof.
  intros data Hrec Hf.
  unfold run, put_data. fold data. cbn [Nat.sub for_loop].
  unfold put_attempt at 1, try_catch, bind at 1, bind at 1, prisma_update, store_op.
  rewrite Hf, Hrec. cbn [put_catch is_write_conflict P2025 err_code String.eqb].
  unfold put_catch. cbn. unfold extend. cbn. now rewrite <- !app_assoc.
Qed.

(** X8: an update whose body is missing, empty, or holds identifier
    fields only, leaves the stored record as it is and still answers 200
    with that record. *)
Theorem put_data_empty_body (env : Env) (w : World) (id : string) (body : option obj)
    (r : obj) :
  put_requestBody body = ∅ ->
  db w !! id = Some r ->
  store_fault env (Update id ∅) (trace w) = None ->
  db (run (put_data env id body) w) = db w /\
  responses (events_of (put_data env id body) w) = [(200, VObj r)].
Proof.
  intros Hb Hrec Hf.
  assert (Hrun : put_data env id body w =
            (Ok tt, extend w [EvStore (Update id ∅) None;
                              EvLog ("PUT /data/" +:+ id +:+ " successful on attempt "
                                       +:+ pretty 0%nat +:+ ":") (VObj r);
                              EvRespond 200 (VObj r)])).
  { unfold put_data. rewrite Hb. cbn [Nat.sub for_loop].
    unfold put_attempt at 1, try_catch, bind at 1, bind at 1, prisma_update, store_op.
    rewrite Hf, Hrec. rewrite (left_id_L ∅ (∪) r), (insert_id _ _ _ Hrec).
    unfold bind, console_log, respond, emit, ret, extend. cbn [db trace].
    now rewrite <- !app_assoc. }
  split.
  - unfold run. now rewrite Hrun.
  - erewrite events_of_app; [| unfold run; rewrite Hrun; reflexivity]. reflexivity.
Qed.

(** ** [POST /upload] on every path *)

Section UploadCourses.

Variable env : Env.
Variable info : FileInfo.

(** The ['end'] listener reads the accumulated chunks as one buffer. *)
Lemma on_end_concat (st st' : FileState) (w : World) :
  concat (chunks st) = concat (chunks st') ->
  on_end env info st w = on_end env info st' w.
Proof. intros E. unfold on_end. now rewrite E. Qed.

(** The courses of an upload of an allowed type within the size limit:
    the events are one of five sequences, and the collection is not
    touched. *)
Lemma post_upload_within_courses (body : list bytes) (w : World) :
  array_includes ALLOWED_TYPES (mimeType info) = true ->
  total_size body <= MAX_FILE_SIZE ->
  exists t,
    post_upload env info body w = (Ok tt, extend w t) /\
    ((exists r blob b, t = [EvBlobPut r None; EvRespond 200 b] /\
                       blob_put env r (trace w) = inr blob) \/
     (exists r e, t = [EvBlobPut r (Some e); EvUnhandledRejection e]) \/
     (exists p e, t = [EvSharp p (concat body) (Some e); EvUnhandledRejection e]) \/
     (exists p r b, t = [EvSharp p (concat body) None; EvBlobPut r None; EvRespond 200 b]) \/
     (exists p r e, t = [EvSharp p (concat body) None; EvBlobPut r (Some e);
                         EvUnhandledRejection e])).
Proof.
  intros A L. rewrite post_upload_within_limit by assumption.
  set (st := {| chunks := body; fileSize := total_size body; destroyed := false |}).
  destruct (transcode_cases env info (concat body) w)
    as [(_ & T) | [(_ & out & _ & T) | (_ & e & _ & T)]].
  - pose proof (on_end_after_transcode env info st w w _ T) as R.
    cbv zeta in R. cbn [fst snd chunks st] in R. rewrite R.
    destruct (blob_put env _ (trace w)) as [e | blob] eqn:Hb;
      eexists; (split; [reflexivity |]); [right; left | left]; eauto.
  - pose proof (on_end_after_transcode env info st w _ _ T) as R.
    cbv zeta in R. cbn [fst snd chunks st] in R. rewrite R.
    destruct (blob_put env _ _) as [e | blob];
      rewrite extend_extend; eexists; (split; [reflexivity |]);
      do 3 right; [right | left]; eauto.
  - rewrite (on_end_transcode_fails env info st w _ e T), extend_extend.
    eexists; split; [reflexivity |]. right; right; left. eauto.
Qed.

End UploadCourses.

(** X9: the outcome of an upload depends on the bytes of the file only,
    not on how the stream delivers them: two bodies with the same
    concatenation give the same events, for every declared type and every
    size. *)
Theorem upload_chunking_irrelevant (env : Env) (info : FileInfo) (body body' : list bytes)
    (w : World) :
  concat body = concat body' ->
  post_upload env info body w = post_upload env info body' w.
Proof.
  intros E.
  assert (Es : total_size body = total_size body') by (unfold total_size; now rewrite E).
  destruct (array_includes ALLOWED_TYPES (mimeType info)) eqn:A.
  - destruct (Z.le_gt_cases (total_size body) MAX_FILE_SIZE) as [L | L].
    + rewrite !post_upload_within_limit by (assumption || lia).
      unfold detached, try_catch.
      now rewrite (on_end_concat env info
                     {| chunks := body; fileSize := total_size body; destroyed := false |}
                     {| chunks := body'; fileSize := total_size body'; destroyed := false |}
                     w E).
    + rewrite !post_upload_over_limit by (assumption || lia). reflexivity.
  - now rewrite !post_upload_refused.
Qed.

(** X10: the size check is exact and is the only check on the content:
    for an allowed type the upload is destroyed and refused if and only if
    the body has more than [MAX_FILE_SIZE] bytes; a body of exactly
    [MAX_FILE_SIZE] bytes, like an empty one, goes on to the transcoder or
    the store. *)
Theorem upload_size_check_exact (env : Env) (info : FileInfo) (body : list bytes)
    (w : World) :
  mimeType info ∈ ALLOWED_TYPES ->
  let t := events_of (post_upload env info body) w in
  (MAX_FILE_SIZE < total_size body <-> t = too_large) /\
  (total_size body <= MAX_FILE_SIZE <->
   exists failure tail,
     t = EvSharp transcode_pipeline (concat body) failure :: tail \/
     (exists r, t = EvBlobPut r failure :: tail /\ put_body r = concat body)).
Proof.
  intros A t. apply array_includes_spec in A.
  assert (Hover : MAX_FILE_SIZE < total_size body -> t = too_large).
  { intros L. apply events_of_app. unfold run. now rewrite post_upload_over_limit. }
  assert (Hwithin : total_size body <= MAX_FILE_SIZE ->
            exists failure tail,
              t = EvSharp transcode_pipeline (concat body) failure :: tail \/
              (exists r, t = EvBlobPut r failure :: tail /\ put_body r = concat body)).
  { intros L.
    set (st := {| chunks := body; fileSize := total_size body; destroyed := false |}).
    destruct (transcode_cases env info (concat body) w)
      as [(_ & T) | [(_ & out & _ & T) | (_ & e & _ & T)]].
    - pose proof (on_end_after_transcode env info st w w _ T) as R.
      cbv zeta in R. cbn [fst snd chunks st] in R.
      destruct (blob_put env _ (trace w)) as [e | blob];
        eexists _, _; right; eexists;
        (split; [apply events_of_app; unfold run;
                 rewrite post_upload_within_limit by assumption; fold st; rewrite R;
                 reflexivity | reflexivity]).
    - pose proof (on_end_after_transcode env info st w _ _ T) as R.
      cbv zeta in R. cbn [fst snd chunks st] in R.
      destruct (blob_put env _ _) as [e | blob];
        eexists _, _; left;
        apply events_of_app; unfold run;
        rewrite post_upload_within_limit by assumption; fold st; rewrite R;
        rewrite extend_extend; reflexivity.
    - eexists _, _; left. apply events_of_app. unfold run.
      rewrite post_upload_within_limit by assumption. fold st.
      rewrite (on_end_transcode_fails env info st w _ e T), extend_extend. reflexivity. }
  split; split.
  - exact Hover.
  - intros E. destruct (Z.le_gt_cases (total_size body) MAX_FILE_SIZE) as [L | L]; [| lia].
    destruct (Hwithin L) as (f & tail & [E' | (r & E' & _)]);
      rewrite E in E'; discriminate.
  - exact Hwithin.
  - intros (f & tail & H).
    destruct (Z.le_gt_cases (total_size body) MAX_FILE_SIZE) as [L | L]; [exact L |].
    rewrite (Hover L) in H. destruct H as [E | (r & E & _)]; discriminate.
Qed.

(** X11: on a request whose multipart body holds one file part, whatever
    the part's declared type, size and chunks and whatever the
    collaborators do, the upload handler returns normally, writes at most
    one response, calls the transcoder at most once and the store's [put]
    at most once, and leaves the record collection as it is. *)
Theorem upload_at_most_once (env : Env) (info : FileInfo) (body : list bytes) (w : World) :
  let t := events_of (post_upload env info body) w in
  fst (post_upload env info body w) = Ok tt /\
  (length (responses t) <= 1)%nat /\
  (count is_sharp t <= 1)%nat /\
  (count is_blob_put t <= 1)%nat /\
  db (run (post_upload env info body) w) = db w.
Proof.
  intros t.
  assert (H : exists t0, post_upload env info body w = (Ok tt, extend w t0) /\
            (length (responses t0) <= 1)%nat /\ (count is_sharp t0 <= 1)%nat /\
            (count is_blob_put t0 <= 1)%nat).
  { destruct (array_includes ALLOWED_TYPES (mimeType info)) eqn:A.
    - destruct (Z.le_gt_cases (total_size body) MAX_FILE_SIZE) as [L | L].
      + destruct (post_upload_within_courses env info body w A L) as (t0 & R & C).
        exists t0. split; [exact R |].
        destruct C as [(r & blob & b & -> & _) | [(r & e & ->) | [(p & e & ->) |
                      [(p & r & b & ->) | (p & r & e & ->)]]]]; cbn; lia.
      + exists too_large. rewrite post_upload_over_limit by assumption. cbn. split; [reflexivity | lia].
    - eexists. rewrite post_upload_refused by assumption. split; [reflexivity |]. cbn. lia. }
  destruct H as (t0 & R & H1 & H2 & H3).
  assert (Et : t = t0) by (apply events_of_app; unfold run; now rewrite R).
  rewrite Et. unfold run. rewrite R. repeat split; assumption.
Qed.

(** ** [DELETE /image/:url] on every path *)

(** X12: the handler writes exactly one response and makes at most one
    blob-delete call, for the decoded parameter.  When the parameter cannot
    be decoded the store is not called; then, as when the blob store fails,
    the response is 500 [{error: 'Delete failed', details}] with the
    message of the error. *)
Theorem delete_image_answers (env : Env) (w : World) (u : string) :
  let t := events_of (delete_image env u) w in
  db (run (delete_image env u) w) = db w /\
  match decodeURIComponent env u with
  | inl e =>
      t = [EvError "Delete error:" e;
           EvRespond 500 (object [("error", VStr "Delete failed");
                                  ("details", VStr (err_message e))])]
  | inr url =>
      match blob_del env (VStr url) (trace w) with
      | None => t = [EvBlobDel (VStr url) None;
                     EvRespond 200 (object [("deleted", VStr url)])]
      | Some e =>
          t = [EvBlobDel (VStr url) (Some e);
               EvError "Delete error:" e;
               EvRespond 500 (object [("error", VStr "Delete failed");
                                      ("details", VStr (err_message e))])]
      end
  end.
Proof.
  intros t. subst t.
  unfold events_of, run, delete_image, try_catch, bind, decode_component, del.
  destruct (decodeURIComponent env u) as [e | url].
  - unfold console_error, respond, emit. cbn [db trace snd]. split; [reflexivity |].
    rewrite <- !app_assoc. apply drop_app_length.
  - destruct (blob_del env (VStr url) (trace w)) as [e|];
      unfold console_error, respond, emit; cbn [db trace snd]; (split; [reflexivity |]);
      rewrite <- !app_assoc; apply drop_app_length.
Qed.

(** ** The upload page *)

Section PageProperties.

Variable fetch : FetchRequest -> list browser_event -> FetchResult.

Lemma showNotice_error (message : value) (b : Browser) :
  showNotice message "error" b =
    {| page := {| imagePreview_src := imagePreview_src (page b);
                  imagePreview_display := imagePreview_display (page b);
                  noticeArea_textContent := to_text_content message;
                  noticeArea_className := "notice error";
                  noticeArea_display := "block";
                  imageUrl_value := imageUrl_value (page b);
                  fileInput_value := fileInput_value (page b);
                  removeImageButton_display := removeImageButton_display (page b);
                  browseButton_textContent := browseButton_textContent (page b) |};
       blog := blog b |}.
Proof. reflexivity. Qed.

(** The [catch] block shows the generic message and keeps the image. *)
Lemma upload_catch_keeps_url (e : error) (b : Browser) :
  imageUrl_value (page (upload_catch e b)) = imageUrl_value (page b) /\
  noticeArea_textContent (page (upload_catch e b)) = "Upload failed. Please try again." /\
  blog (upload_catch e b) = blog b ++ [BConsoleError "Upload error:" e].
Proof. repeat split. Qed.

End PageProperties.

(** X14: [uploadFile] checks the file before it sends anything: for a
    file of more than 10 MiB, or one whose type does not start with
    [image/], no request is made; only the notice changes (an error notice
    is shown) and the chosen image, the preview and the buttons stay as
    they are. *)
Theorem uploadFile_refuses_locally
    (fetch : FetchRequest -> list browser_event -> FetchResult) (file : File) (b : Browser) :
  10 * 1024 * 1024 < file_size file \/ String.prefix "image/" (file_type file) = false ->
  let b' := uploadFile fetch file b in
  blog b' = blog b /\
  page b' =
    {| imagePreview_src := imagePreview_src (page b);
       imagePreview_display := imagePreview_display (page b);
       noticeArea_textContent :=
         if 10 * 1024 * 1024 <? file_size file
         then "File too large. Maximum size is 10MB."
         else "Only image files are allowed.";
       noticeArea_className := "notice error";
       noticeArea_display := "block";
       imageUrl_value := imageUrl_value (page b);
       fileInput_value := fileInput_value (page b);
       removeImageButton_display := removeImageButton_display (page b);
       browseButton_textContent := browseButton_textContent (page b) |}.
Proof.
  intros H b'. subst b'. unfold uploadFile.
  destruct (10 * 1024 * 1024 <? file_size file) eqn:L.
  - split; reflexivity.
  - destruct H as [H | H]; [apply Z.ltb_ge in L; lia |].
    rewrite H. split; reflexivity.
Qed.

(** X15: [uploadFile] makes at most one request, and the chosen image
    changes only when that request is answered with a 2xx status and a JSON
    body whose [url] can be read: then the hidden field and the preview take
    that [url]; in every other case (local refusal, network error, error
    status, unreadable body, no answer) the field keeps its value. *)
Theorem uploadFile_keeps_url_unless_ok
    (fetch : FetchRequest -> list browser_event -> FetchResult) (file : File) (b : Browser) :
  let b' := uploadFile fetch file b in
  (blog b' = blog b \/
   exists rest, blog b' = blog b ++ BFetch (upload_request file) :: rest /\
                forall r, BFetch r ∉ rest) /\
  (imageUrl_value (page b') = imageUrl_value (page b) \/
   exists status data url,
     fetch (upload_request file) (blog b) = Response status (inr data) /\
     200 <= status <= 299 /\
     property data "url" = inr url /\
     imageUrl_value (page b') = to_dom_string url /\
     imagePreview_src (page b') = to_string url /\
     noticeArea_textContent (page b') = "Upload successful!").
Proof.
  intros b'. subst b'. unfold uploadFile.
  destruct (10 * 1024 * 1024 <? file_size file); [split; left; reflexivity |].
  destruct (String.prefix "image/" (file_type file)); cbn [negb];
    [| split; left; reflexivity].
  assert (Hno : forall (l : list browser_event),
            (forall e, e ∈ l -> match e with BFetch _ => False | _ => True end) ->
            forall r, BFetch r ∉ l).
  { intros l Hl r Hin. exact (Hl _ Hin). }
  destruct (fetch (upload_request file) (blog b)) as [e | status json |] eqn:F.
  - split; [right | left; reflexivity].
    exists [BConsoleError "Upload error:" e]. split; [cbn; now rewrite <- app_assoc |].
    apply Hno. intros ev. rewrite elem_of_cons, elem_of_nil. now intros [-> | []].
  - unfold upload_response.
    destruct (response_ok status) eqn:Ok; cbn [negb].
    + destruct json as [e | data].
      * split; [right | left; reflexivity].
        exists [BConsoleError "Upload error:" e]. split; [cbn; now rewrite <- app_assoc |].
        apply Hno. intros ev. rewrite elem_of_cons, elem_of_nil. now intros [-> | []].
      * destruct (property data "url") as [e | url] eqn:P.
        -- split; [right | left; reflexivity].
           exists [BConsoleError "Upload error:" e]. split; [cbn; now rewrite <- app_assoc |].
           apply Hno. intros ev. rewrite elem_of_cons, elem_of_nil. now intros [-> | []].
        -- split; [right | right].
           ++ exists [BSetTimeout 3000]. split; [cbn; now rewrite <- app_assoc |].
              apply Hno. intros ev. rewrite elem_of_cons, elem_of_nil. now intros [-> | []].
           ++ exists status, data, url. unfold response_ok in Ok.
              apply andb_true_iff in Ok as [O1 O2].
              apply Z.leb_le in O1, O2. repeat split; auto.
    + destruct json as [e | err].
      * split; [right | left; reflexivity].
        exists [BConsoleError "Upload error:" e]. split; [cbn; now rewrite <- app_assoc |].
        apply Hno. intros ev. rewrite elem_of_cons, elem_of_nil. now intros [-> | []].
      * destruct (property err "error") as [e | message].
        -- split; [right | left; reflexivity].
           exists [BConsoleError "Upload error:" e]. split; [cbn; now rewrite <- app_assoc |].
           apply Hno. intros ev. rewrite elem_of_cons, elem_of_nil. now intros [-> | []].
        -- split; [right | left; reflexivity].
           exists []. split; [reflexivity |]. intros r Hin. inversion Hin.
  - split; [right | left; reflexivity].
    exists []. split; [reflexivity |]. intros r Hin. inversion Hin.
Qed.

(** X16: [removeImage] asks the server only when an image is chosen,
    never reads the answer, and, once the request has settled in any way
    (or none was made), clears the hidden field, the file input and the
    preview, hides the notice and the Remove button and labels the other
    button [Browse]: the page forgets the image whether or not the server
    deleted it. *)
Theorem removeImage_clears
    (fetch : FetchRequest -> list browser_event -> FetchResult) (b : Browser) :
  let url := imageUrl_value (page b) in
  let b' := removeImage fetch b in
  (url = "" -> blog b' = blog b) /\
  (url <> "" -> exists rest, blog b' = blog b ++ BFetch (remove_request url) :: rest /\
                             forall r, BFetch r ∉ rest) /\
  (url = "" \/ fetch (remove_request url) (blog b) <> NoAnswer ->
   page b' =
     {| imagePreview_src := "";
        imagePreview_display := "none";
        noticeArea_textContent := noticeArea_textContent (page b);
        noticeArea_className := noticeArea_className (page b);
        noticeArea_display := "none";
        imageUrl_value := "";
        fileInput_value := "";
        removeImageButton_display := "none";
        browseButton_textContent := "Browse" |}).
Proof.
  intros url b'. subst b'. unfold removeImage. fold url.
  destruct (String.eqb_spec url "") as [E | N].
  - rewrite E. cbn [truthy String.eqb negb]. repeat split; congruence.
  - assert (T : truthy (VStr url) = true) by (now apply truthy_string).
    rewrite T. split; [congruence |]. split.
    + intros _. destruct (fetch (remove_request url) (blog b)) as [e | s j |].
      * exists [BConsoleError "Delete error:" e]. split; [cbn; now rewrite <- app_assoc |].
        intros r. rewrite elem_of_cons, elem_of_nil. now intros [? | []].
      * exists []. split; [reflexivity |]. intros r Hin. inversion Hin.
      * exists []. split; [reflexivity |]. intros r Hin. inversion Hin.
    + intros [? | Hs]; [contradiction |].
      destruct (fetch (remove_request url) (blog b)) as [e | s j |];
        [reflexivity | reflexivity | contradiction].
Qed.

(** ** The page and the upload router together *)

Lemma serve_upload_request (env : Env) (w : World) (deliver : bytes -> list bytes)
    (file : File) :
  serve env w deliver (upload_request file) =
    Some match responses (events_of
                 (post_upload env {| filename := file_name file; mimeType := file_type file |}
                    (deliver (file_bytes file))) w) with
         | (status, body) :: _ => Response status (inr body)
         | [] => NoAnswer
         end.
Proof. reflexivity. Qed.

Lemma allowed_types_are_images (m : string) :
  m ∈ ALLOWED_TYPES -> String.prefix "image/" m = true.
Proof.
  unfold ALLOWED_TYPES. rewrite !elem_of_cons, elem_of_nil.
  intros [-> | [-> | [-> | [-> | []]]]]; reflexivity.
Qed.

(** The response of a successful upload. *)
Lemma post_upload_success (env : Env) (info : FileInfo) (body : list bytes)
    (w w1 : World) (p : bytes * string) (blob : PutBlobResult) :
  array_includes ALLOWED_TYPES (mimeType info) = true ->
  total_size body <= MAX_FILE_SIZE ->
  transcode env info (concat body) w = (Ok p, w1) ->
  blob_put env (upload_put (date_now env (trace w1)) info (fst p) (snd p)) (trace w1)
    = inr blob ->
  responses (events_of (post_upload env info body) w) =
    [(200, object [("url", VStr (blob_url blob));
                   ("pathname", VStr (blob_pathname blob));
                   ("contentType", VStr (blob_contentType blob));
                   ("size", VNum (Z.of_nat (length (fst p))))])].
Proof.
  intros A L T Hb.
  pose proof (on_end_after_transcode env info
                {| chunks := body; fileSize := total_size body; destroyed := false |}
                w w1 p T) as R.
  cbv zeta in R. cbn [chunks] in R. rewrite Hb in R.
  assert (Hw1 : exists pre, trace w1 = trace w ++ pre /\ responses pre = []).
  { destruct (transcode_cases env info (concat body) w)
      as [(_ & T') | [(_ & out & _ & T') | (_ & e & _ & T')]];
      rewrite T' in T; inversion T; subst.
    - exists []. now rewrite app_nil_r.
    - eexists [_]. split; reflexivity. }
  destruct Hw1 as (pre & Hpre & Hresp).
  erewrite events_of_app.
  2:{ unfold run. rewrite post_upload_within_limit by assumption. rewrite R.
      cbn [snd extend trace]. rewrite Hpre, <- app_assoc. reflexivity. }
  now rewrite responses_app, Hresp.
Qed.

(** X17: the page and the server disagree on types.  Every type the
    server allows passes the page's check, but the page lets through any
    [image/...] type: a file of such a type outside the server's allow-list
    is sent, refused by the server with 400, and the page shows the
    server's message and keeps the image it had. *)
Theorem upload_type_gap (env : Env) (w : World) (deliver : bytes -> list bytes)
    (fetch : FetchRequest -> list browser_event -> FetchResult) (file : File) (b : Browser) :
  served_by env w deliver fetch ->
  file_size file <= 10 * 1024 * 1024 ->
  String.prefix "image/" (file_type file) = true ->
  file_type file ∉ ALLOWED_TYPES ->
  let b' := uploadFile fetch file b in
  (forall m, m ∈ ALLOWED_TYPES -> String.prefix "image/" m = true) /\
  blog b' = blog b ++ [BFetch (upload_request file)] /\
  noticeArea_textContent (page b') = "Invalid file type. Only images allowed." /\
  noticeArea_className (page b') = "notice error" /\
  noticeArea_display (page b') = "block" /\
  imageUrl_value (page b') = imageUrl_value (page b).
Proof.
  intros Hnet Hsize Htype Hnot b'.
  split; [exact allowed_types_are_images |].
  apply array_includes_false in Hnot.
  assert (F : fetch (upload_request file) (blog b) =
            Response 400 (inr (object [("error",
                                        VStr "Invalid file type. Only images allowed.")]))).
  { apply Hnet. rewrite serve_upload_request.
    erewrite events_of_app;
      [| unfold run; rewrite post_upload_refused by exact Hnot; reflexivity].
    reflexivity. }
  subst b'. unfold uploadFile.
  apply Z.ltb_ge in Hsize. rewrite Hsize, Htype, F. cbn [negb].
  repeat split.
Qed.

(** X18: the way of the URL.  When the page uploads a file of an allowed
    type within the limit to the upload router and the transcoding step and
    the store's [put] succeed, the hidden field and the preview of the page
    end up holding the [url] of the store's [put] result, and the success
    notice is shown. *)
Theorem upload_end_to_end (env : Env) (w w1 : World) (deliver : bytes -> list bytes)
    (fetch : FetchRequest -> list browser_event -> FetchResult) (file : File) (b : Browser)
    (p : bytes * string) (blob : PutBlobResult) :
  let info := {| filename := file_name file; mimeType := file_type file |} in
  served_by env w deliver fetch ->
  concat (deliver (file_bytes file)) = file_bytes file ->
  file_size file <= 10 * 1024 * 1024 ->
  file_type file ∈ ALLOWED_TYPES ->
  transcode env info (file_bytes file) w = (Ok p, w1) ->
  blob_put env (upload_put (date_now env (trace w1)) info (fst p) (snd p)) (trace w1)
    = inr blob ->
  let b' := uploadFile fetch file b in
  imageUrl_value (page b') = blob_url blob /\
  imagePreview_src (page b') = blob_url blob /\
  imagePreview_display (page b') = "block" /\
  noticeArea_textContent (page b') = "Upload successful!" /\
  noticeArea_className (page b') = "notice success" /\
  removeImageButton_display (page b') = (if String.eqb (blob_url blob) "" then "none" else "flex").
Proof.
  intros info Hnet Hdel Hsize Htype T Hb b'.
  pose proof (allowed_types_are_images _ Htype) as Himg.
  apply array_includes_spec in Htype.
  assert (L : total_size (deliver (file_bytes file)) <= MAX_FILE_SIZE).
  { unfold total_size. rewrite Hdel. exact Hsize. }
  assert (F : fetch (upload_request file) (blog b) =
            Response 200 (inr (object [("url", VStr (blob_url blob));
                                       ("pathname", VStr (blob_pathname blob));
                                       ("contentType", VStr (blob_contentType blob));
                                       ("size", VNum (Z.of_nat (length (fst p))))]))).
  { apply Hnet. rewrite serve_upload_request. fold info.
    rewrite (post_upload_success env info (deliver (file_bytes file)) w w1 p blob Htype L);
      [reflexivity | now rewrite Hdel | exact Hb]. }
  subst b'. unfold uploadFile.
  apply Z.ltb_ge in Hsize. rewrite Hsize, Himg, F. cbn [negb].
  unfold upload_response. cbn [response_ok Z.leb Z.compare Pos.compare Pos.compare_cont andb negb].
  change (property (object [("url", VStr (blob_url blob));
                            ("pathname", VStr (blob_pathname blob));
                            ("contentType", VStr (blob_contentType blob));
                            ("size", VNum (Z.of_nat (length (fst p))))]) "url")
    with (@inr error value (VStr (blob_url blob))).
  cbn. destruct (String.eqb (blob_url blob) ""); repeat split.
Qed.

(** X19: every upload request of the page is within the server's size
    limit: the page refuses a file of more than 10 MiB itself, so whenever
    it does send a file, the server's stream abort with [File too large]
    does not happen. *)
Theorem page_uploads_within_limit (env : Env) (w : World) (deliver : bytes -> list bytes)
    (fetch : FetchRequest -> list browser_event -> FetchResult) (file : File) (b : Browser) :
  concat (deliver (file_bytes file)) = file_bytes file ->
  blog (uploadFile fetch file b) <> blog b ->
  let info := {| filename := file_name file; mimeType := file_type file |} in
  let t := events_of (post_upload env info (deliver (file_bytes file))) w in
  total_size (deliver (file_bytes file)) <= MAX_FILE_SIZE /\
  (EvDestroy ∉ t) /\
  forall b0, (400, b0) ∈ responses t ->
    b0 = object [("error", VStr "Invalid file type. Only images allowed.")].
Proof.
  intros Hdel Hsent info t.
  assert (L : total_size (deliver (file_bytes file)) <= MAX_FILE_SIZE).
  { unfold total_size. rewrite Hdel. fold (file_size file).
    unfold uploadFile in Hsent.
    destruct (10 * 1024 * 1024 <? file_size file) eqn:S;
      [exfalso; apply Hsent; reflexivity |].
    apply Z.ltb_ge in S. exact S. }
  split; [exact L |].
  destruct (array_includes ALLOWED_TYPES (mimeType info)) eqn:A.
  - destruct (post_upload_within_courses env info _ w A L) as (t0 & R & C).
    assert (Et : t = t0) by (apply events_of_app; unfold run; now rewrite R).
    rewrite Et.
    destruct C as [(r & blob & b1 & -> & _) | [(r & e & ->) | [(p & e & ->) |
                  [(p & r & b1 & ->) | (p & r & e & ->)]]]];
      (split; [rewrite !elem_of_cons, elem_of_nil;
               intros Hin; repeat (destruct Hin as [Hin | Hin]; [discriminate |]);
               contradiction |]);
      intros b0; cbn; rewrite ?elem_of_cons, elem_of_nil;
      intros Hin; repeat (destruct Hin as [Hin | Hin]; [discriminate |]); contradiction.
  - assert (Et : t = [EvRespond 400 (object [("error",
                        VStr "Invalid file type. Only images allowed.")])]).
    { apply events_of_app. unfold run. now rewrite post_upload_refused. }
    rewrite Et. split.
    + rewrite elem_of_cons, elem_of_nil. intros [? | []]. discriminate.
    + intros b0. cbn. rewrite elem_of_cons, elem_of_nil. intros [[= ->] | []]. reflexivity.
Qed.

(** X20: removing an image on the page does not remove it from the blob
    store.  The request [removeImage] sends, [DELETE /api/image] with the
    URL in a JSON body, reaches the upload router as a request that no
    route matches, so no handler runs and no blob is deleted; yet, however
    the request is settled, the page clears the chosen image. *)
Theorem removeImage_leaves_blob (env : Env) (w : World) (deliver : bytes -> list bytes)
    (fetch : FetchRequest -> list browser_event -> FetchResult) (b : Browser) :
  let url := imageUrl_value (page b) in
  url <> "" ->
  fetch (remove_request url) (blog b) <> NoAnswer ->
  app_request deliver (remove_request url) = Some (remove_image_request url) /\
  dispatch upload_routes env (remove_image_request url) = None /\
  serve env w deliver (remove_request url) = None /\
  imageUrl_value (page (removeImage fetch b)) = "" /\
  imagePreview_display (page (removeImage fetch b)) = "none".
Proof.
  intros url Hurl Hs.
  split; [reflexivity |]. split; [reflexivity |]. split; [reflexivity |].
  unfold removeImage. fold url.
  assert (T : truthy (VStr url) = true) by (now apply truthy_string).
  rewrite T.
  destruct (fetch (remove_request url) (blog b)) as [e | s j |];
    [split; reflexivity | split; reflexivity | contradiction].
Qed.

(** ** Instances of the further properties *)

Lemma delete_data_twice_witness :
  count is_blob_del
    (events_of (delete_data quiet_env "p1") (run (delete_data quiet_env "p1") sample_world))
    = 0%nat.
Proof.
  pose proof (delete_data_twice quiet_env sample_world "p1" sample_photo eq_refl
                (conj eq_refl (conj eq_refl I))) as H.
  cbv zeta in H. exact (proj1 (proj2 H)).
Defined.

Lemma create_then_delete_witness :
  db (run (delete_data quiet_env "650000000000000000000001")
        (run (post_data quiet_env (Some sample_photo)) sample_world))
    = db sample_world.
Proof.
  pose proof (create_then_delete quiet_env sample_world sample_photo eq_refl eq_refl
                (conj eq_refl (conj eq_refl I))) as H.
  cbv zeta in H. exact (proj1 (proj2 (proj2 H))).
Defined.

Lemma put_data_missing_record_witness :
  responses (events_of (put_data quiet_env "p2" (Some sample_photo)) sample_world) =
    [(500, object [("error", VStr "Failed to update record")])].
Proof.
  pose proof (put_data_missing_record quiet_env sample_world "p2" (Some sample_photo)
                eq_refl eq_refl) as H.
  cbv zeta in H. erewrite events_of_app; [| rewrite H; reflexivity]. reflexivity.
Defined.

Lemma put_data_empty_body_witness :
  db (run (put_data quiet_env "p1" None) sample_world) = db sample_world /\
  responses (events_of (put_data quiet_env "p1" None) sample_world) = [(200, VObj sample_photo)].
Proof.
  exact (put_data_empty_body quiet_env sample_world "p1" None sample_photo
           eq_refl eq_refl eq_refl).
Defined.

Lemma upload_chunking_irrelevant_witness :
  post_upload quiet_env svg_info small_body sample_world =
  post_upload quiet_env svg_info [concat small_body] sample_world.
Proof.
  exact (upload_chunking_irrelevant quiet_env svg_info small_body [concat small_body]
           sample_world eq_refl).
Defined.

Lemma upload_size_check_exact_witness :
  MAX_FILE_SIZE < total_size [full_chunk] <->
  events_of (post_upload quiet_env svg_info [full_chunk]) sample_world = too_large.
Proof.
  pose proof (upload_size_check_exact quiet_env svg_info [full_chunk] sample_world
                svg_allowed) as H.
  cbv zeta in H. exact (proj1 H).
Defined.

Lemma text_file_refused : String.prefix "image/" (file_type text_file) = false.
Proof. reflexivity. Qed.

Lemma uploadFile_refuses_locally_witness :
  blog (uploadFile (router_only quiet_env sample_world) text_file blank_browser) = [].
Proof.
  pose proof (uploadFile_refuses_locally (router_only quiet_env sample_world) text_file
                blank_browser (or_intror text_file_refused)) as H.
  cbv zeta in H. exact (proj1 H).
Defined.

Lemma router_only_served (env : Env) (w : World) :
  served_by env w one_chunk (router_only env w).
Proof. intros r history answer H. unfold router_only. now rewrite H. Qed.

Lemma gif_file_small : file_size gif_file <= 10 * 1024 * 1024.
Proof. vm_compute. discriminate. Qed.

Lemma gif_not_allowed : file_type gif_file ∉ ALLOWED_TYPES.
Proof. apply array_includes_false. reflexivity. Qed.

Lemma upload_type_gap_witness :
  noticeArea_textContent
    (page (uploadFile (router_only quiet_env sample_world) gif_file blank_browser))
    = "Invalid file type. Only images allowed.".
Proof.
  pose proof (upload_type_gap quiet_env sample_world one_chunk
                (router_only quiet_env sample_world) gif_file blank_browser
                (router_only_served quiet_env sample_world)
                gif_file_small eq_refl gif_not_allowed) as H.
  cbv zeta in H. exact (proj1 (proj2 (proj2 H))).
Defined.

Lemma png_file_small : file_size png_file <= 10 * 1024 * 1024.
Proof. vm_compute. discriminate. Qed.

Lemma png_file_allowed : file_type png_file ∈ ALLOWED_TYPES.
Proof. apply array_includes_spec. reflexivity. Qed.

Lemma upload_end_to_end_witness :
  imageUrl_value
    (page (uploadFile (router_only quiet_env sample_world) png_file blank_browser))
    = "https://blobs.example/cat-images/1700000000000-cat.png".
Proof.
  pose proof (upload_end_to_end quiet_env sample_world
                (extend sample_world
                   [EvSharp transcode_pipeline (file_bytes png_file) None])
                one_chunk (router_only quiet_env sample_world) png_file blank_browser
                ([Byte.xff; Byte.xd8; Byte.xff], "image/jpeg")
                {| blob_url := "https://blobs.example/cat-images/1700000000000-cat.png";
                   blob_pathname := "cat-images/1700000000000-cat.png";
                   blob_contentType := "image/jpeg" |}
                (router_only_served quiet_env sample_world)
                eq_refl png_file_small png_file_allowed eq_refl eq_refl) as H.
  cbv zeta in H. exact (proj1 H).
Defined.

Lemma png_upload_sent :
  blog (uploadFile (router_only quiet_env sample_world) png_file blank_browser)
    <> blog blank_browser.
Proof. vm_compute. discriminate. Qed.

Lemma page_uploads_within_limit_witness :
  total_size (one_chunk (file_bytes png_file)) <= MAX_FILE_SIZE.
Proof.
  pose proof (page_uploads_within_limit quiet_env sample_world one_chunk
                (router_only quiet_env sample_world) png_file blank_browser
                eq_refl png_upload_sent) as H.
  cbv zeta in H. exact (proj1 H).
Defined.

Lemma chosen_browser_has_image : imageUrl_value (page chosen_browser) <> "".
Proof. discriminate. Qed.

Lemma offline_settles (r : FetchRequest) (history : list browser_event) :
  offline r history <> NoAnswer.
Proof. discriminate. Qed.

Lemma removeImage_leaves_blob_witness :
  imageUrl_value (page (removeImage offline chosen_browser)) = "".
Proof.
  pose proof (removeImage_leaves_blob quiet_env sample_world one_chunk offline chosen_browser
                chosen_browser_has_image (offline_settles _ _)) as H.
  cbv zeta in H. exact (proj1 (proj2 (proj2 (proj2 H)))).
Defined.

(** ** The catalogue page and the record router together *)










